(** * ECIES / ECDSA facade of blockstack.js ([src/encryption.js])

    A shallow embedding of the encryption module and the properties its
    specification states about it.

    - Node [Buffer]s are lists of bytes, JavaScript strings are lists of
      UTF-16 code units, hex strings are Rocq strings.
    - [throw] is the left injection of a sum; every call into Node's
      [crypto] module is recorded in a call log, so that "this primitive
      was never invoked" is a statement about the log.
    - The two imported libraries ([elliptic]'s secp256k1 context and Node's
      [crypto]) are interfaces (type classes); their laws are hypotheses of
      the theorems that need them, and a small concrete implementation shows
      the hypotheses can be met together. *)

From Stdlib Require Import ZArith NArith List String Ascii Bool Lia Arith.
From Stdlib Require Import Init.Byte Strings.Byte Strings.HexString.
Import ListNotations.

#[local] Open Scope Z_scope.
#[local] Open Scope list_scope.

(* ================================================================= *)
(** ** Bytes and buffers *)

Definition Buffer := list byte.

Definition byte_to_Z (b : byte) : Z := Z.of_N (Byte.to_N b).

(** The byte a number is stored as in a [Buffer] (kept modulo 256). *)
Definition byte_of_Z (z : Z) : byte :=
  match Byte.of_N (Z.to_N (z mod 256)) with
  | Some b => b
  | None => x00
  end.

(** [b[i]] inside a bitwise expression: an index past the end reads
    [undefined], which the bitwise operators take as 0. *)
Definition at_ (b : Buffer) (i : nat) : Z :=
  match nth_error b i with
  | Some x => byte_to_Z x
  | None => 0
  end.

(* ================================================================= *)
(** ** [equalConstTime] (lines 29-38) *)

Definition equalConstTime (b1 b2 : Buffer) : bool :=
  if negb (List.length b1 =? List.length b2)%nat then false
  else
    let res :=
      fold_left (fun res i => Z.lor res (Z.lxor (at_ b1 i) (at_ b2 i)))
                (seq 0 (List.length b1)) 0 in
    res =? 0.

(* ================================================================= *)
(** ** Exceptions *)

(** [new Error(message)], thrown by this module or by a library. *)
Inductive exn : Type :=
| Error (message : string).

Definition result (A : Type) : Type := (exn + A)%type.

(* ================================================================= *)
(** ** Hex strings *)

Definition hexDigit (n : N) : ascii :=
  match n with
  | 0 => "0" | 1 => "1" | 2 => "2" | 3 => "3" | 4 => "4" | 5 => "5"
  | 6 => "6" | 7 => "7" | 8 => "8" | 9 => "9" | 10 => "a" | 11 => "b"
  | 12 => "c" | 13 => "d" | 14 => "e" | _ => "f"
  end%N%char.

Definition isHexChar (c : ascii) : bool :=
  match HexString.ascii_to_digit c with Some _ => true | None => false end.

(** [buf.toString('hex')]: two lower-case digits per byte. *)
Fixpoint hexEncode (b : Buffer) : string :=
  match b with
  | [] => EmptyString
  | x :: r =>
      let n := Byte.to_N x in
      String (hexDigit (n / 16)) (String (hexDigit (n mod 16)) (hexEncode r))
  end.

(** [new Buffer(str, 'hex')]: pairs of hex digits (either case) are
    decoded from the left; decoding stops at the first pair that is not
    two hex digits, and a trailing single character is dropped. *)
Fixpoint hexDecode (s : string) : Buffer :=
  match s with
  | String c1 (String c2 rest) =>
      match HexString.ascii_to_digit c1, HexString.ascii_to_digit c2 with
      | Some h, Some l => byte_of_Z (Z.of_N (16 * h + l)) :: hexDecode rest
      | _, _ => []
      end
  | _ => []
  end.

(** ['0'.repeat(n)] *)
Fixpoint zeros (n : nat) : string :=
  match n with
  | O => EmptyString
  | S k => String "0" (zeros k)
  end.

(** [bn.toString('hex')] of a non-negative big number (the x-coordinate
    that [derive] returns): the digits without leading zeros, ["0"] for
    zero. *)
Definition BN_toString_hex (n : N) : string :=
  match n with
  | N0 => "0"%string
  | Npos p => HexString.Raw.of_pos p EmptyString
  end.

(* ================================================================= *)
(** ** [getHexFromBN] (lines 49-62) *)

Definition BN_TOO_LONG : exn :=
  Error "Generated a > 32-byte BN for encryption. Failing.".

Definition getHexFromBN (bnInput : N) : result string :=
  let hexOut := BN_toString_hex bnInput in
  if (String.length hexOut =? 64)%nat then inr hexOut
  else if (String.length hexOut <? 64)%nat then
    let padding := zeros (64 - String.length hexOut) in
    inr (padding ++ hexOut)%string
  else inl BN_TOO_LONG.

(* ================================================================= *)
(** ** JavaScript strings and their UTF-8 encoding

    [Buffer.from(string)] writes a string as UTF-8 and [buf.toString()]
    reads UTF-8 back.  A JavaScript string is a sequence of 16-bit code
    units; a surrogate that is not part of a pair has no UTF-8 form and is
    written as U+FFFD (bytes EF BF BD). *)

Definition jsstring := list Z.

Definition isHighSurrogate (u : Z) : bool := (0xD800 <=? u) && (u <=? 0xDBFF).
Definition isLowSurrogate (u : Z) : bool := (0xDC00 <=? u) && (u <=? 0xDFFF).

(** [str.isWellFormed()]: code units in range and no lone surrogate. *)
Fixpoint isWellFormed (s : jsstring) : bool :=
  match s with
  | [] => true
  | u :: r =>
      if isHighSurrogate u then
        match r with
        | u2 :: r2 => isLowSurrogate u2 && isWellFormed r2
        | [] => false
        end
      else negb (isLowSurrogate u) && (0 <=? u) && (u <? 0x10000)
           && isWellFormed r
  end.

Definition utf8Bytes (cp : Z) : Buffer :=
  if cp <? 0x80 then [byte_of_Z cp]
  else if cp <? 0x800 then
    [byte_of_Z (0xC0 + cp / 64); byte_of_Z (0x80 + cp mod 64)]
  else if cp <? 0x10000 then
    [byte_of_Z (0xE0 + cp / 4096); byte_of_Z (0x80 + (cp / 64) mod 64);
     byte_of_Z (0x80 + cp mod 64)]
  else
    [byte_of_Z (0xF0 + cp / 262144); byte_of_Z (0x80 + (cp / 4096) mod 64);
     byte_of_Z (0x80 + (cp / 64) mod 64); byte_of_Z (0x80 + cp mod 64)].

Definition REPLACEMENT_BYTES : Buffer := [xef; xbf; xbd].

(** [Buffer.from(str)] (UTF-8 is the default encoding). *)
Fixpoint utf8Write (s : jsstring) : Buffer :=
  match s with
  | [] => []
  | u :: r =>
      if isHighSurrogate u then
        match r with
        | u2 :: r2 =>
            if isLowSurrogate u2 then
              utf8Bytes (0x10000 + (u - 0xD800) * 0x400 + (u2 - 0xDC00))
                ++ utf8Write r2
            else REPLACEMENT_BYTES ++ utf8Write r
        | [] => REPLACEMENT_BYTES
        end
      else if isLowSurrogate u then REPLACEMENT_BYTES ++ utf8Write r
      else utf8Bytes u ++ utf8Write r
  end.

Definition isCont (lo hi : Z) (b : byte) : bool :=
  (lo <=? byte_to_Z b) && (byte_to_Z b <=? hi).

(** The six payload bits of a continuation byte. *)
Definition contBits (b : byte) : Z := byte_to_Z b - 0x80.

Definition codeUnits (cp : Z) : jsstring :=
  if cp <? 0x10000 then [cp]
  else [0xD800 + (cp - 0x10000) / 0x400; 0xDC00 + (cp - 0x10000) mod 0x400].

(** [buf.toString()]: UTF-8 decoding; every maximal ill-formed part of the
    input becomes one U+FFFD and decoding resumes at the byte that broke
    the sequence. *)
Fixpoint utf8Slice (bs : Buffer) : jsstring :=
  match bs with
  | [] => []
  | b0 :: r0 =>
      let z := byte_to_Z b0 in
      if z <? 0x80 then z :: utf8Slice r0
      else if (0xC2 <=? z) && (z <=? 0xDF) then
        match r0 with
        | b1 :: r1 =>
            if isCont 0x80 0xBF b1
            then ((z - 0xC0) * 64 + contBits b1) :: utf8Slice r1
            else 0xFFFD :: utf8Slice r0
        | [] => [0xFFFD]
        end
      else if (0xE0 <=? z) && (z <=? 0xEF) then
        match r0 with
        | b1 :: r1 =>
            if isCont (if z =? 0xE0 then 0xA0 else 0x80)
                      (if z =? 0xED then 0x9F else 0xBF) b1
            then
              match r1 with
              | b2 :: r2 =>
                  if isCont 0x80 0xBF b2
                  then (((z - 0xE0) * 64 + contBits b1) * 64 + contBits b2)
                         :: utf8Slice r2
                  else 0xFFFD :: utf8Slice r1
              | [] => [0xFFFD]
              end
            else 0xFFFD :: utf8Slice r0
        | [] => [0xFFFD]
        end
      else if (0xF0 <=? z) && (z <=? 0xF4) then
        match r0 with
        | b1 :: r1 =>
            if isCont (if z =? 0xF0 then 0x90 else 0x80)
                      (if z =? 0xF4 then 0x8F else 0xBF) b1
            then
              match r1 with
              | b2 :: r2 =>
                  if isCont 0x80 0xBF b2 then
                    match r2 with
                    | b3 :: r3 =>
                        if isCont 0x80 0xBF b3
                        then codeUnits
                               ((((z - 0xF0) * 64 + contBits b1) * 64
                                 + contBits b2) * 64 + contBits b3)
                               ++ utf8Slice r3
                        else 0xFFFD :: utf8Slice r2
                    | [] => [0xFFFD]
                    end
                  else 0xFFFD :: utf8Slice r1
              | [] => [0xFFFD]
              end
            else 0xFFFD :: utf8Slice r0
        | [] => [0xFFFD]
        end
      else 0xFFFD :: utf8Slice r0
  end.

(** What this module encrypts and signs: [string | Buffer]. *)
Inductive content : Type :=
| Str (s : jsstring)
| Buf (b : Buffer).

(** [typeof content === 'string'] *)
Definition isString (c : content) : bool :=
  match c with Str _ => true | Buf _ => false end.

(** [Buffer.from(content)]: a string is written as UTF-8, a buffer is
    copied. *)
Definition Buffer_from (c : content) : Buffer :=
  match c with
  | Str s => utf8Write s
  | Buf b => b
  end.

(* ================================================================= *)
(** ** Calls into Node's [crypto] module, and the monad of this module

    A computation yields a value or throws, and leaves the list of
    [crypto] calls it made, in order. *)

Inductive call : Type :=
| CreateHash (algorithm : string) (data : Buffer)
| CreateHmac (algorithm : string) (key data : Buffer)
| CreateCipheriv (algorithm : string) (key iv data : Buffer)
| CreateDecipheriv (algorithm : string) (key iv data : Buffer)
| RandomBytes (size : nat).

Definition isDecipher (c : call) : bool :=
  match c with CreateDecipheriv _ _ _ _ => true | _ => false end.

Definition M (A : Type) : Type := (result A * list call)%type.

Definition ret {A} (x : A) : M A := (inr x, []).
Definition throw {A} (e : exn) : M A := (inl e, []).
Definition lift {A} (r : result A) : M A := (r, []).
Definition called {A} (c : call) (r : result A) : M A := (r, [c]).

Definition bind {A B} (m : M A) (f : A -> M B) : M B :=
  match m with
  | (inl e, l) => (inl e, l)
  | (inr x, l) => let (r, l') := f x in (r, l ++ l')
  end.

Notation "x <- m ;; k" := (bind m (fun x => k))
  (at level 61, m at next level, right associativity).

Definition outcome {A} (m : M A) : result A := fst m.
Definition calls {A} (m : M A) : list call := snd m.

(* ================================================================= *)
(** ** The imported libraries *)

(** Node's [crypto], as far as this module uses it.  The block cipher
    throws on a key or IV of the wrong size and, when deciphering, on bad
    padding. *)
Class Crypto : Type := {
  sha256 : Buffer -> Buffer;
  sha512 : Buffer -> Buffer;
  hmac_sha256 : Buffer -> Buffer -> Buffer;
  aes_256_cbc_cipher : Buffer -> Buffer -> Buffer -> result Buffer;
  aes_256_cbc_decipher : Buffer -> Buffer -> Buffer -> result Buffer
}.

(** [elliptic]'s context [ecurve = new EllipticCurve('secp256k1')].
    A [KeyPair] is what [keyFromPrivate], [keyFromPublic] and [genKeyPair]
    return.  [verify] is [key.verify(msg, signature)]: it imports the DER
    signature, checks it against the key's public point and answers, or
    throws what either step throws (a signature that does not import, a
    key that holds no public point). *)
Class EllipticCurve : Type := {
  KeyPair : Type;
  Point : Type;
  Signature : Type;
  keyFromPrivate : string -> result KeyPair;
  keyFromPublic : string -> result KeyPair;
  getPublic : KeyPair -> Point;
  derive : KeyPair -> Point -> result N;
  encodeCompressed : Point -> Buffer;
  sign : KeyPair -> Buffer -> result Signature;
  toDER : Signature -> string;
  verify : KeyPair -> Buffer -> string -> result bool
}.

(** The sibling module [./keys] is imported but not part of this file:
    its function (private key hex to public key hex) is a parameter, and
    nothing is assumed about it except where a theorem says so. *)
Class Keys : Type := {
  getPublicKeyFromPrivate : string -> result string
}.

(** The outcome of the random draws of one encryption: the key pair
    [ecurve.genKeyPair()] makes of the 192 bytes it draws with
    [crypto.randomBytes], and the 16 bytes of [crypto.randomBytes(16)]. *)
Record entropy `{EllipticCurve} : Type := {
  genKeyPair : KeyPair;
  randomBytes16 : Buffer
}.

(* ================================================================= *)
(** ** The module [encryption.js] *)

Record CipherObject : Type := {
  iv : string;
  ephemeralPK : string;
  cipherText : string;
  mac : string;
  wasString : bool
}.

Record sharedKeys : Type := {
  encryptionKey : Buffer;
  hmacKey : Buffer
}.

Record signed : Type := {
  signature : string;
  publicKey : string
}.

Definition MAC_CHECK_FAILED : exn :=
  Error "Decryption failed: failure in MAC check".

Section Encryption.
Context `{crypto : Crypto} `{ecurve : EllipticCurve} `{keys : Keys}.

(** lines 15-18 *)
Definition aes256CbcEncrypt (iv key plaintext : Buffer) : M Buffer :=
  called (CreateCipheriv "aes-256-cbc" key iv plaintext)
         (aes_256_cbc_cipher key iv plaintext).

(** lines 20-23 *)
Definition aes256CbcDecrypt (iv key ciphertext : Buffer) : M Buffer :=
  called (CreateDecipheriv "aes-256-cbc" key iv ciphertext)
         (aes_256_cbc_decipher key iv ciphertext).

(** lines 25-27 *)
Definition hmacSha256 (key content : Buffer) : M Buffer :=
  called (CreateHmac "sha256" key content) (inr (hmac_sha256 key content)).

(** lines 40-47; [slice(0, 32)] and [slice(32)] *)
Definition sharedSecretToKeys (sharedSecret : Buffer) : M sharedKeys :=
  hashedSecret <- called (CreateHash "sha512" sharedSecret)
                         (inr (sha512 sharedSecret)) ;;
  ret {| encryptionKey := firstn 32 hashedSecret;
         hmacKey := skipn 32 hashedSecret |}.

(** lines 74-107 *)
Definition encryptECIES (rnd : entropy) (publicKey : string)
    (content : content) : M CipherObject :=
  let isString := isString content in
  let plainText := Buffer_from content in
  ecKey <- lift (keyFromPublic publicKey) ;;
  let ecPK := getPublic ecKey in
  ephemeralSK <- called (RandomBytes 192) (inr (genKeyPair rnd)) ;;
  let ephemeralPK' := getPublic ephemeralSK in
  sharedSecret <- lift (derive ephemeralSK ecPK) ;;
  sharedSecretHex <- lift (getHexFromBN sharedSecret) ;;
  sharedKeys <- sharedSecretToKeys (hexDecode sharedSecretHex) ;;
  initializationVector <- called (RandomBytes 16) (inr (randomBytes16 rnd)) ;;
  cipherText' <- aes256CbcEncrypt initializationVector
                   (encryptionKey sharedKeys) plainText ;;
  let macData := initializationVector
                   ++ encodeCompressed ephemeralPK' ++ cipherText' in
  mac' <- hmacSha256 (hmacKey sharedKeys) macData ;;
  ret {| iv := hexEncode initializationVector;
         ephemeralPK := hexEncode (encodeCompressed ephemeralPK');
         cipherText := hexEncode cipherText';
         mac := hexEncode mac';
         wasString := isString |}.

(** lines 120-148 *)
Definition decryptECIES (privateKey : string) (cipherObject : CipherObject)
    : M content :=
  ecSK <- lift (keyFromPrivate privateKey) ;;
  ephemeralKey <- lift (keyFromPublic (ephemeralPK cipherObject)) ;;
  let ephemeralPK' := getPublic ephemeralKey in
  sharedSecret <- lift (derive ecSK ephemeralPK') ;;
  sharedSecretHex <- lift (getHexFromBN sharedSecret) ;;
  let sharedSecretBuffer := hexDecode sharedSecretHex in
  sharedKeys <- sharedSecretToKeys sharedSecretBuffer ;;
  let ivBuffer := hexDecode (iv cipherObject) in
  let cipherTextBuffer := hexDecode (cipherText cipherObject) in
  let macData := ivBuffer ++ encodeCompressed ephemeralPK'
                   ++ cipherTextBuffer in
  actualMac <- hmacSha256 (hmacKey sharedKeys) macData ;;
  let expectedMac := hexDecode (mac cipherObject) in
  if negb (equalConstTime expectedMac actualMac) then
    throw MAC_CHECK_FAILED
  else
    plainText <- aes256CbcDecrypt ivBuffer (encryptionKey sharedKeys)
                   cipherTextBuffer ;;
    if wasString cipherObject then ret (Str (utf8Slice plainText))
    else ret (Buf plainText).

(** lines 159-172 *)
Definition signECDSA (privateKey : string) (content : content) : M signed :=
  let contentBuffer := Buffer_from content in
  ecPrivate <- lift (keyFromPrivate privateKey) ;;
  publicKey' <- lift (getPublicKeyFromPrivate privateKey) ;;
  contentHash <- called (CreateHash "sha256" contentBuffer)
                        (inr (sha256 contentBuffer)) ;;
  signature' <- lift (sign ecPrivate contentHash) ;;
  let signatureString := toDER signature' in
  ret {| signature := signatureString; publicKey := publicKey' |}.

(** lines 182-190 *)
Definition verifyECDSA (content : content) (publicKey signature : string)
    : M bool :=
  let contentBuffer := Buffer_from content in
  ecPublic <- lift (keyFromPublic publicKey) ;;
  contentHash <- called (CreateHash "sha256" contentBuffer)
                        (inr (sha256 contentBuffer)) ;;
  lift (verify ecPublic contentHash signature).

End Encryption.


(* ================================================================= *)
(** ** Notions used to state the properties *)

Definition allHex (s : string) : bool :=
  forallb isHexChar (list_ascii_of_string s).

(** A string or buffer that survives [Buffer.from] and [toString]. *)
Definition wellFormedContent (c : content) : Prop :=
  match c with
  | Str s => isWellFormed s = true
  | Buf _ => True
  end.

(** Bit [i] of a buffer flipped: bit [i mod 8] of byte [i / 8]. *)
Fixpoint flipBit (i : nat) (b : Buffer) : Buffer :=
  match b with
  | [] => []
  | x :: r =>
      if (i <? 8)%nat
      then byte_of_Z (Z.lxor (byte_to_Z x) (2 ^ Z.of_nat i)) :: r
      else x :: flipBit (i - 8) r
  end.

Inductive field : Type := Iv | EphemeralPK | CipherText | Mac.

(** The cipher object with one bit of one field flipped. *)
Definition tamper (f : field) (i : nat) (o : CipherObject) : CipherObject :=
  let flip := fun hex => hexEncode (flipBit i (hexDecode hex)) in
  {| iv := match f with Iv => flip (iv o) | _ => iv o end;
     ephemeralPK :=
       match f with EphemeralPK => flip (ephemeralPK o) | _ => ephemeralPK o end;
     cipherText :=
       match f with CipherText => flip (cipherText o) | _ => cipherText o end;
     mac := match f with Mac => flip (mac o) | _ => mac o end;
     wasString := wasString o |}.

(** The cipher object with another spelling of the ephemeral key. *)
Definition withEphemeralPK (hex : string) (o : CipherObject) : CipherObject :=
  {| iv := iv o; ephemeralPK := hex; cipherText := cipherText o;
     mac := mac o; wasString := wasString o |}.

(** What [Buffer.from] followed by [toString] makes of the content. *)
Definition readBack (c : content) : content :=
  match c with
  | Str s => Str (utf8Slice (utf8Write s))
  | Buf b => Buf b
  end.

(** The 32 bytes a shared secret below 2^256 is turned into (lines 83-86
    and 124): its hex digits behind leading zeros, decoded. *)
Definition paddedSecret (secret : N) : Buffer :=
  hexDecode (zeros (64 - String.length (BN_toString_hex secret))
             ++ BN_toString_hex secret)%string.

(** The run threw [e] and never created a decipher. *)
Definition rejected {A} (run : M A) (e : exn) : Prop :=
  outcome run = inl e /\ existsb isDecipher (calls run) = false.

Section Notions.
Context `{crypto : Crypto} `{ecurve : EllipticCurve}.

(** The first phase of [decryptECIES] (lines 121-124): both keys parsed,
    the secret derived and brought to 32 bytes.  It yields the ephemeral
    point and the secret buffer, or the error that stopped it. *)
Definition keyAgreement (privateKey ephemeralHex : string)
    : result (Point * Buffer) :=
  match keyFromPrivate privateKey with
  | inl e => inl e
  | inr ecSK =>
      match keyFromPublic ephemeralHex with
      | inl e => inl e
      | inr ephemeralKey =>
          match derive ecSK (getPublic ephemeralKey) with
          | inl e => inl e
          | inr sharedSecret =>
              match getHexFromBN sharedSecret with
              | inl e => inl e
              | inr hex => inr (getPublic ephemeralKey, hexDecode hex)
              end
          end
      end
  end.

(** The two keys a secret buffer is split into. *)
Definition keysOf (secret : Buffer) : sharedKeys :=
  {| encryptionKey := firstn 32 (sha512 secret);
     hmacKey := skipn 32 (sha512 secret) |}.

(** The bytes the MAC is taken over: iv, compressed point, cipher text. *)
Definition macInput (ivBuffer : Buffer) (ephemeral : Point)
    (cipherTextBuffer : Buffer) : Buffer :=
  ivBuffer ++ encodeCompressed ephemeral ++ cipherTextBuffer.

(** The MAC [decryptECIES] recomputes for a cipher object. *)
Definition macOf (secret : Buffer) (ephemeral : Point) (o : CipherObject)
    : Buffer :=
  hmac_sha256 (hmacKey (keysOf secret))
    (macInput (hexDecode (iv o)) ephemeral (hexDecode (cipherText o))).

(** HMAC-SHA256 under [key] does not collide on the two inputs. *)
Definition noCollision (key d1 d2 : Buffer) : Prop :=
  hmac_sha256 key d1 = hmac_sha256 key d2 -> d1 = d2.

(** [sk] and [pk] are the two halves of the key pair [K]. *)
Definition isKeyPair (sk pk : string) (K : KeyPair) : Prop :=
  keyFromPrivate sk = inr K
  /\ exists Kp, keyFromPublic pk = inr Kp /\ getPublic Kp = getPublic K.

(** The public key of [E] parses back from its compressed hex form. *)
Definition transmissible (E : KeyPair) : Prop :=
  exists Ke,
    keyFromPublic (hexEncode (encodeCompressed (getPublic E))) = inr Ke
    /\ getPublic Ke = getPublic E.

(** Diffie-Hellman: each side derives [secret] from its own private key
    and the other's public key, and [secret] is below 2^256. *)
Definition agree (K E : KeyPair) (secret : N) : Prop :=
  derive E (getPublic K) = inr secret
  /\ derive K (getPublic E) = inr secret
  /\ (secret < 2 ^ 256)%N.

(** HMAC-SHA256 does not give one MAC for two different inputs, the keys
    being equal or not. *)
Definition noCollisionAcross (key1 d1 key2 d2 : Buffer) : Prop :=
  hmac_sha256 key1 d1 = hmac_sha256 key2 d2 -> d1 = d2.

(** SHA-256 does not collide on the two inputs. *)
Definition sha256_separates (b1 b2 : Buffer) : Prop :=
  sha256 b1 = sha256 b2 -> b1 = b2.

(** ECDSA of the library is correct on the key pair: what the private
    half signs, the public half [Kp] accepts in its DER form. *)
Definition ECDSA_correct (K Kp : KeyPair) : Prop :=
  forall h : Buffer,
  exists sg, sign K h = inr sg /\ verify Kp h (toDER sg) = inr true.

(** ECDSA of the library tells digests apart: a signature [Kp] accepts for
    the digest [h] it answers [false] to, without throwing, for the other
    digest [h']. *)
Definition rejectsOtherDigest (Kp : KeyPair) (sig : string)
    (h h' : Buffer) : Prop :=
  verify Kp h sig = inr true -> h' <> h -> verify Kp h' sig = inr false.

(** ECDSA of the library tells keys apart: a signature [Kp] accepts for
    the digest [h] the key [Kp'] of another point answers [false] to,
    without throwing. *)
Definition rejectsOtherKey (Kp Kp' : KeyPair) (sig : string)
    (h : Buffer) : Prop :=
  verify Kp h sig = inr true -> getPublic Kp' <> getPublic Kp ->
  verify Kp' h sig = inr false.

End Notions.

Arguments keysOf : simpl never.
Arguments paddedSecret : simpl never.

(* ================================================================= *)
(** ** Notions used by the further properties *)

(** The number a buffer holds, most significant byte first. *)
Definition bigEndian (b : Buffer) : N :=
  fold_left (fun a x => (256 * a + Byte.to_N x)%N) b 0%N.

(** The cipher object with its [wasString] flag replaced. *)
Definition setWasString (w : bool) (o : CipherObject) : CipherObject :=
  {| iv := iv o; ephemeralPK := ephemeralPK o; cipherText := cipherText o;
     mac := mac o; wasString := w |}.

Definition isHmac (c : call) : bool :=
  match c with CreateHmac _ _ _ => true | _ => false end.

Definition isCipher (c : call) : bool :=
  match c with CreateCipheriv _ _ _ _ => true | _ => false end.

Definition isRandom (c : call) : bool :=
  match c with RandomBytes _ => true | _ => false end.

Definition isHash (c : call) : bool :=
  match c with CreateHash _ _ => true | _ => false end.

(** A decrypted buffer read as a string, as [wasString] asks. *)
Definition asString (c : content) : content :=
  match c with
  | Buf b => Str (utf8Slice b)
  | Str s => Str s
  end.

Section SenderNotions.
Context `{ecurve : EllipticCurve}.

(** The first phase of [encryptECIES] (lines 78-86): the recipient key
    parsed, the secret derived from the drawn key pair and brought to 32
    bytes. *)
Definition senderSecret (rnd : entropy) (publicKey : string)
    : result Buffer :=
  match keyFromPublic publicKey with
  | inl e => inl e
  | inr ecKey =>
      match derive (genKeyPair rnd) (getPublic ecKey) with
      | inl e => inl e
      | inr sharedSecret =>
          match getHexFromBN sharedSecret with
          | inl e => inl e
          | inr hex => inr (hexDecode hex)
          end
      end
  end.

(** The [crypto] call [ecurve.genKeyPair()] makes (line 79), which the
    run reaches once the recipient key has parsed. *)
Definition keyPairDraw (publicKey : string) : list call :=
  match keyFromPublic publicKey with
  | inl _ => []
  | inr _ => [RandomBytes 192]
  end.

End SenderNotions.

(* ================================================================= *)
(** ** Proof tools *)

Ltac divmod_lia := Z.div_mod_to_equations; lia.

(** Settles one comparison of the goal by arithmetic on the ranges at
    hand, or splits on an equality test it cannot settle. *)
Ltac decide_test :=
  match goal with
  | |- context [?a <? ?b] =>
      first [ replace (a <? b) with true
                by (symmetry; apply Z.ltb_lt; divmod_lia)
            | replace (a <? b) with false
                by (symmetry; apply Z.ltb_ge; divmod_lia) ]
  | |- context [?a <=? ?b] =>
      first [ replace (a <=? b) with true
                by (symmetry; apply Z.leb_le; divmod_lia)
            | replace (a <=? b) with false
                by (symmetry; apply Z.leb_gt; divmod_lia) ]
  | |- context [?a =? ?b] =>
      first [ replace (a =? b) with true
                by (symmetry; apply Z.eqb_eq; divmod_lia)
            | replace (a =? b) with false
                by (symmetry; apply Z.eqb_neq; divmod_lia)
            | destruct (Z.eqb_spec a b) ]
  end; cbn [andb orb negb].

(* ================================================================= *)
(** ** A small implementation of the two libraries

    The theorems below assume laws of [crypto] and [elliptic].  This
    module implements both interfaces on the curve y^2 = x^3 + 7 over the
    field of 43 elements (secp256k1's equation on a one-byte field; the
    group has prime order 31), with check-sum hashes and a padding-only
    block cipher.  It offers no security; it shows that the laws can hold
    together and lets every statement be evaluated. *)

Module Small.

Definition p : Z := 43.
Definition n : Z := 31.
Definition G : option (Z * Z) := Some (2, 12).

Definition inv (m a : Z) : Z := (a ^ (m - 2)) mod m.

Definition onCurve (x y : Z) : bool := (y * y) mod p =? (x * x * x + 7) mod p.

Definition add (P Q : option (Z * Z)) : option (Z * Z) :=
  match P, Q with
  | None, _ => Q
  | _, None => P
  | Some (x1, y1), Some (x2, y2) =>
      if (x1 =? x2) && ((y1 + y2) mod p =? 0) then None
      else
        let l := if (x1 =? x2)
                 then (3 * x1 * x1 * inv p (2 * y1)) mod p
                 else ((y2 - y1) * inv p (x2 - x1)) mod p in
        let x3 := (l * l - x1 - x2) mod p in
        Some (x3, (l * (x1 - x3) - y1) mod p)
  end.

Definition mul (k : Z) (P : option (Z * Z)) : option (Z * Z) :=
  match k mod n with
  | Zpos q => Pos.iter_op add q P
  | _ => None
  end.

Record keyPair : Type := {
  priv : option Z;
  pub : option (Z * Z)
}.

Definition numberOfHex (s : string) : Z := Z.of_N (HexString.Raw.to_N s 0%N).

Definition fromPrivate (hex : string) : result keyPair :=
  let d := numberOfHex hex mod n in
  inr {| priv := Some d; pub := mul d G |}.

(** [curve.decodePoint]: uncompressed (04, and the hybrid 06 and 07 with
    their parity assertion) or compressed (02, 03), told apart by the
    first byte and the length; only a compressed point is checked against
    the curve equation ([pointFromX]). *)
Definition decodePoint (bytes : Buffer) : result (option (Z * Z)) :=
  match map byte_to_Z bytes with
  | [b0; x; y] =>
      if (b0 =? 4) || (b0 =? 6) || (b0 =? 7) then
        if ((b0 =? 6) && Z.odd y) || ((b0 =? 7) && Z.even y)
        then inl (Error "Assertion failed")
        else inr (Some (x, y))
      else inl (Error "Unknown point format")
  | [b0; x] =>
      if (b0 =? 2) || (b0 =? 3) then
        let x := x mod p in
        let y := ((x * x * x + 7) ^ 11) mod p in
        if onCurve x y then
          inr (Some (x, if Bool.eqb (Z.odd y) (b0 =? 3) then y else p - y))
        else inl (Error "invalid point")
      else inl (Error "Unknown point format")
  | _ => inl (Error "Unknown point format")
  end.

Definition fromPublic (hex : string) : result keyPair :=
  match decodePoint (hexDecode hex) with
  | inl e => inl e
  | inr P => inr {| priv := None; pub := P |}
  end.

Definition ecdh (k : keyPair) (P : option (Z * Z)) : result N :=
  match priv k with
  | None => inl (Error "no private key")
  | Some d =>
      match mul d P with
      | Some (x, _) => inr (Z.to_N x)
      | None => inl (Error "point at infinity")
      end
  end.

Definition compressed (P : option (Z * Z)) : Buffer :=
  match P with
  | Some (x, y) => [if Z.odd y then x03 else x02; byte_of_Z x]
  | None => []
  end.

Definition checksum (data : Buffer) : Z :=
  fold_left (fun a b => (a * 31 + byte_to_Z b + 1) mod 65521) data 7.

Definition digest (size : nat) (data : Buffer) : Buffer :=
  map (fun i => byte_of_Z (checksum data + Z.of_nat i)) (seq 0 size).

(** ECDSA on the small curve; the nonce is searched from the key and the
    message until [r] and [s] are not zero. *)
Definition signWith (d z k : Z) : option (Z * Z) :=
  match mul k G with
  | Some (x, _) =>
      let r := x mod n in
      let s := (inv n k * (z + r * d)) mod n in
      if (r =? 0) || (s =? 0) then None else Some (r, s)
  | None => None
  end.

Fixpoint signFrom (tries : nat) (d z k : Z) : result (Z * Z) :=
  match tries with
  | O => inl (Error "no nonce")
  | S t =>
      match signWith d z (1 + k mod (n - 1)) with
      | Some sg => inr sg
      | None => signFrom t d z (k + 1)
      end
  end.

Definition ecdsaSign (k : keyPair) (msg : Buffer) : result (Z * Z) :=
  match priv k with
  | None => inl (Error "no private key")
  | Some d => let z := checksum msg mod n in signFrom 30 d z (d + z)
  end.

Definition ecdsaVerifyZ (Q : option (Z * Z)) (z : Z) (sg : Z * Z) : bool :=
  let (r, s) := sg in
  if (r <? 1) || (n <=? r) || (s <? 1) || (n <=? s) then false
  else
    let w := inv n s in
    match add (mul ((z * w) mod n) G) (mul ((r * w) mod n) Q) with
    | Some (x, _) => x mod n =? r
    | None => false
    end.

Definition ecdsaVerify (k : keyPair) (msg : Buffer) (sg : Z * Z) : bool :=
  ecdsaVerifyZ (pub k) (checksum msg mod n) sg.

(** DER of two one-byte integers: 30 06 02 01 r 02 01 s. *)
Definition der (sg : Z * Z) : string :=
  hexEncode [x30; x06; x02; x01; byte_of_Z (fst sg); x02; x01;
             byte_of_Z (snd sg)].

Definition parseDER (hex : string) : option (Z * Z) :=
  match map byte_to_Z (hexDecode hex) with
  | [48; 6; 2; 1; r; 2; 1; s] => Some (r, s)
  | _ => None
  end.

Definition SIGNATURE_WITHOUT_R_OR_S : exn := Error "Signature without r or s".

(** [key.verify]: [new Signature(signature, 'hex')] throws when the DER
    does not parse; a parsed signature is checked. *)
Definition ecdsaVerifyDER (k : keyPair) (msg : Buffer) (signature : string)
    : result bool :=
  match parseDER signature with
  | None => inl SIGNATURE_WITHOUT_R_OR_S
  | Some sg => inr (ecdsaVerify k msg sg)
  end.

#[local] Open Scope nat_scope.

(** The block cipher keeps the bytes and appends PKCS#7 padding. *)
Definition cipher (key iv plaintext : Buffer) : result Buffer :=
  if negb (List.length key =? 32) then inl (Error "Invalid key length")
  else if negb (List.length iv =? 16) then inl (Error "Invalid IV length")
  else
    let k := 16 - List.length plaintext mod 16 in
    inr (plaintext ++ repeat (byte_of_Z (Z.of_nat k)) k).

Definition decipher (key iv ciphertext : Buffer) : result Buffer :=
  if negb (List.length key =? 32) then inl (Error "Invalid key length")
  else if negb (List.length iv =? 16) then inl (Error "Invalid IV length")
  else
    let k := Z.to_nat (byte_to_Z (last ciphertext x00)) in
    if (1 <=? k) && (k <=? 16) && (k <=? List.length ciphertext)
    then inr (firstn (List.length ciphertext - k) ciphertext)
    else inl (Error "bad decrypt").

#[local] Close Scope nat_scope.

Definition crypto : Crypto := {|
  sha256 := digest 32;
  sha512 := digest 64;
  hmac_sha256 := fun key data => digest 32 (key ++ data);
  aes_256_cbc_cipher := cipher;
  aes_256_cbc_decipher := decipher
|}.

Definition ecurve : EllipticCurve := {|
  KeyPair := keyPair;
  Point := option (Z * Z);
  Signature := (Z * Z)%type;
  keyFromPrivate := fromPrivate;
  keyFromPublic := fromPublic;
  getPublic := pub;
  derive := ecdh;
  encodeCompressed := compressed;
  sign := ecdsaSign;
  toDER := der;
  verify := ecdsaVerifyDER
|}.

Definition keys : Keys := {|
  getPublicKeyFromPrivate := fun hex =>
    match fromPrivate hex with
    | inl e => inl e
    | inr k => inr (hexEncode (compressed (pub k)))
    end
|}.

Definition encrypt := @encryptECIES crypto ecurve.
Definition decrypt := @decryptECIES crypto ecurve.
Definition signContent := @signECDSA crypto ecurve keys.
Definition verifyContent := @verifyECDSA crypto ecurve.

(** One recipient key pair, one ephemeral key pair and one IV. *)
Definition sk : string := "05".
Definition pk : string := "020c".
Definition recipient : keyPair := {| priv := Some 5; pub := Some (12, 12) |}.
Definition recipientPublic : keyPair := {| priv := None; pub := Some (12, 12) |}.
Definition ephemeral : keyPair := {| priv := Some 7; pub := mul 7 G |}.
Definition rnd : @entropy ecurve :=
  {| genKeyPair := ephemeral : @KeyPair ecurve;
     randomBytes16 := map (fun i => byte_of_Z (Z.of_nat (17 * i))) (seq 1 16) |}.

(** Signing with the private key 5 and verifying with its public key
    succeed on the message number [z]. *)
Definition ecdsaCheck (z : Z) : bool :=
  match signFrom 30 5 z (5 + z) with
  | inr sg =>
      match parseDER (der sg) with
      | Some sg' => ecdsaVerifyZ (Some (12, 12)) z sg'
      | None => false
      end
  | inl _ => false
  end.

(** What [encrypt rnd pk "hi"] returns. *)
Definition sample : CipherObject :=
  {| iv := "112233445566778899aabbccddeeff10";
     ephemeralPK := "0219";
     cipherText := "68690e0e0e0e0e0e0e0e0e0e0e0e0e0e";
     mac := "12131415161718191a1b1c1d1e1f202122232425262728292a2b2c2d2e2f3031";
     wasString := true |}.

Definition hi : content := Str [104; 105].

(** A cipher object whose MAC is right but whose cipher text is sixteen
    zero bytes, which end in no valid padding. *)
Definition badPadding : CipherObject :=
  {| iv := "112233445566778899aabbccddeeff10";
     ephemeralPK := "0219";
     cipherText := "00000000000000000000000000000000";
     mac := "5d5e5f606162636465666768696a6b6c6d6e6f707172737475767778797a7b7c";
     wasString := false |}.

(** [sample] spelled with upper-case hex digits. *)
Definition sampleUpper : CipherObject :=
  {| iv := "112233445566778899AABBCCDDEEFF10";
     ephemeralPK := "0219";
     cipherText := "68690E0E0E0E0E0E0E0E0E0E0E0E0E0E";
     mac := "12131415161718191A1B1C1D1E1F202122232425262728292A2B2C2D2E2F3031";
     wasString := true |}.

(** Draws with an empty IV, which the cipher refuses. *)
Definition rndNoIv : @entropy ecurve :=
  {| genKeyPair := ephemeral : @KeyPair ecurve; randomBytes16 := [] |}.

(** The small curve with a [derive] that answers 2^256.  No curve does;
    it is there to exercise the guard of [getHexFromBN]. *)
Definition oversized : EllipticCurve := {|
  KeyPair := keyPair;
  Point := option (Z * Z);
  Signature := (Z * Z)%type;
  keyFromPrivate := fromPrivate;
  keyFromPublic := fromPublic;
  getPublic := pub;
  derive := fun _ _ => inr (2 ^ 256)%N;
  encodeCompressed := compressed;
  sign := ecdsaSign;
  toDER := der;
  verify := ecdsaVerifyDER
|}.

Definition rndOversized : @entropy oversized :=
  {| genKeyPair := ephemeral : @KeyPair oversized;
     randomBytes16 := @randomBytes16 ecurve rnd |}.

End Small.

(* ================================================================= *)
(** * Properties *)

(** ** Bytes *)

Lemma byte_to_Z_range (b : byte) : 0 <= byte_to_Z b < 256.
Proof.
  unfold byte_to_Z. pose proof (Byte.to_N_bounded b). lia.
Qed.

Lemma byte_of_to_Z (b : byte) : byte_of_Z (byte_to_Z b) = b.
Proof.
  unfold byte_of_Z. pose proof (byte_to_Z_range b) as R.
  rewrite Z.mod_small by exact R.
  unfold byte_to_Z. rewrite N2Z.id, Byte.of_to_N. reflexivity.
Qed.

Lemma byte_to_of_Z (z : Z) : 0 <= z < 256 -> byte_to_Z (byte_of_Z z) = z.
Proof.
  intros R. unfold byte_of_Z. rewrite Z.mod_small by exact R.
  destruct (Byte.of_N (Z.to_N z)) as [b|] eqn:E.
  - apply Byte.to_of_N in E. unfold byte_to_Z. rewrite E. lia.
  - apply Byte.of_N_None_iff in E. lia.
Qed.

Lemma byte_to_Z_inj (a b : byte) : byte_to_Z a = byte_to_Z b -> a = b.
Proof.
  intros E. rewrite <- (byte_of_to_Z a), <- (byte_of_to_Z b), E. reflexivity.
Qed.

(** ** The constant-time comparison *)

Lemma fold_lor_zero (f : nat -> Z) (l : list nat) (a : Z) :
  fold_left (fun res i => Z.lor res (f i)) l a = 0
  <-> a = 0 /\ Forall (fun i => f i = 0) l.
Proof.
  revert a. induction l as [|i l IH]; intros a; simpl.
  - split; [intros ->; auto | intros [-> _]; reflexivity].
  - rewrite IH, Z.lor_eq_0_iff. split.
    + intros [[Ha Hi] Hl]. auto.
    + intros [Ha Hl]. inversion Hl; subst. auto.
Qed.

Lemma at_lxor_zero (b1 b2 : Buffer) (i : nat) :
  (i < List.length b1)%nat -> (i < List.length b2)%nat ->
  (Z.lxor (at_ b1 i) (at_ b2 i) = 0 <-> nth_error b1 i = nth_error b2 i).
Proof.
  intros H1 H2. unfold at_.
  destruct (nth_error b1 i) as [x|] eqn:E1;
    [|apply nth_error_None in E1; lia].
  destruct (nth_error b2 i) as [y|] eqn:E2;
    [|apply nth_error_None in E2; lia].
  rewrite Z.lxor_eq_0_iff. split.
  - intros E. f_equal. apply byte_to_Z_inj, E.
  - intros E. inversion E. reflexivity.
Qed.

Lemma nth_error_ext_eq (A : Type) (l1 l2 : list A) :
  List.length l1 = List.length l2 ->
  (forall i, (i < List.length l1)%nat -> nth_error l1 i = nth_error l2 i) ->
  l1 = l2.
Proof.
  revert l2. induction l1 as [|x l1 IH]; intros [|y l2] L H; simpl in *;
    try discriminate; auto.
  f_equal.
  - specialize (H 0%nat). simpl in H. assert (Some x = Some y) as E by (apply H; lia).
    inversion E. reflexivity.
  - apply IH; [lia|]. intros i Hi. apply (H (S i)). lia.
Qed.

Lemma equalConstTime_true_iff (a b : Buffer) :
  equalConstTime a b = true <-> a = b.
Proof.
  unfold equalConstTime.
  destruct (List.length a =? List.length b)%nat eqn:L; simpl.
  - apply Nat.eqb_eq in L. rewrite Z.eqb_eq, fold_lor_zero, Forall_forall.
    split.
    + intros [_ H]. apply nth_error_ext_eq; [exact L|].
      intros i Hi. apply at_lxor_zero; [lia|lia|].
      apply H, in_seq. lia.
    + intros ->. split; [reflexivity|]. intros i Hi.
      apply in_seq in Hi. apply at_lxor_zero; auto; lia.
  - apply Nat.eqb_neq in L. split; [discriminate|].
    intros ->. contradiction.
Qed.

Lemma equalConstTime_refl (b : Buffer) : equalConstTime b b = true.
Proof.
  apply equalConstTime_true_iff. reflexivity.
Qed.

Lemma equalConstTime_false (a b : Buffer) :
  a <> b -> equalConstTime a b = false.
Proof.
  intros D. destruct (equalConstTime a b) eqn:E; [|reflexivity].
  apply equalConstTime_true_iff in E. contradiction.
Qed.

Lemma equalConstTime_length (a b : Buffer) :
  List.length a <> List.length b -> equalConstTime a b = false.
Proof.
  intros L. apply equalConstTime_false. intros ->. contradiction.
Qed.

(** C7. [equalConstTime] answers [false] whenever the two buffers differ
    in length and, on buffers of one length, answers [true] exactly when
    they hold the same bytes.  This is shown for buffers of every length,
    so in particular for lengths 0 to 64. *)
Theorem equalConstTime_correct (a b : Buffer) :
  (List.length a <> List.length b -> equalConstTime a b = false) /\
  (List.length a = List.length b -> (equalConstTime a b = true <-> a = b)).
Proof.
  split.
  - apply equalConstTime_length.
  - intros _. apply equalConstTime_true_iff.
Qed.

(** ** Hex strings *)

Lemma hexDigit_value (x : byte) :
  HexString.ascii_to_digit (hexDigit (Byte.to_N x / 16))
    = Some (Byte.to_N x / 16)%N
  /\ HexString.ascii_to_digit (hexDigit (Byte.to_N x mod 16))
    = Some (Byte.to_N x mod 16)%N.
Proof.
  destruct x; vm_compute; split; reflexivity.
Qed.

Lemma hexDecode_hexEncode (b : Buffer) : hexDecode (hexEncode b) = b.
Proof.
  induction b as [|x r IH]; [reflexivity|].
  cbn [hexEncode hexDecode].
  destruct (hexDigit_value x) as [-> ->]. rewrite IH. f_equal.
  rewrite <- (N.div_mod (Byte.to_N x) 16) by discriminate.
  apply byte_of_to_Z.
Qed.

Lemma hexEncode_inj (a b : Buffer) : hexEncode a = hexEncode b -> a = b.
Proof.
  intros E. rewrite <- (hexDecode_hexEncode a), <- (hexDecode_hexEncode b), E.
  reflexivity.
Qed.

Lemma length_zeros (k : nat) : String.length (zeros k) = k.
Proof.
  induction k; simpl; congruence.
Qed.

Lemma length_append (s t : string) :
  String.length (s ++ t) = (String.length s + String.length t)%nat.
Proof.
  induction s; simpl; congruence.
Qed.

Lemma allHex_append (s t : string) :
  allHex (s ++ t) = allHex s && allHex t.
Proof.
  unfold allHex. induction s as [|c s IH]; simpl; [reflexivity|].
  rewrite IH. apply andb_assoc.
Qed.

Lemma allHex_zeros (k : nat) : allHex (zeros k) = true.
Proof.
  induction k; [reflexivity|]. exact IHk.
Qed.

(** The digits [bn.toString('hex')] produces: all of them hex digits, at
    least one, and no more than the size of the number needs. *)
Fixpoint of_pos_digits (q : positive) (rest : string) {struct q} :
  (allHex rest = true -> allHex (HexString.Raw.of_pos q rest) = true)
  /\ (String.length rest < String.length (HexString.Raw.of_pos q rest))%nat
  /\ (16 ^ N.of_nat (String.length (HexString.Raw.of_pos q rest)
                     - S (String.length rest)) <= Npos q)%N.
Proof.
  assert (step : forall (q' : positive) (c : ascii) (d : N),
             isHexChar c = true -> (Npos q = 16 * Npos q' + d)%N ->
             HexString.Raw.of_pos q rest
               = HexString.Raw.of_pos q' (String c rest) ->
             ((allHex (String c rest) = true ->
               allHex (HexString.Raw.of_pos q' (String c rest)) = true)
              /\ (String.length (String c rest)
                  < String.length (HexString.Raw.of_pos q' (String c rest)))%nat
              /\ (16 ^ N.of_nat
                         (String.length (HexString.Raw.of_pos q' (String c rest))
                          - S (String.length (String c rest))) <= Npos q')%N) ->
             (allHex rest = true -> allHex (HexString.Raw.of_pos q rest) = true)
             /\ (String.length rest
                 < String.length (HexString.Raw.of_pos q rest))%nat
             /\ (16 ^ N.of_nat (String.length (HexString.Raw.of_pos q rest)
                                - S (String.length rest)) <= Npos q)%N).
  { intros q' c d Hc Hq -> (IH1 & IH2 & IH3). simpl in IH2, IH3.
    split; [|split].
    - intros Hr. apply IH1. unfold allHex in *. simpl. rewrite Hc. exact Hr.
    - lia.
    - replace (String.length (HexString.Raw.of_pos q' (String c rest))
               - S (String.length rest))%nat
        with (S (String.length (HexString.Raw.of_pos q' (String c rest))
                 - S (S (String.length rest))))%nat by lia.
      rewrite Nat2N.inj_succ, N.pow_succ_r'. lia. }
  destruct q as [[[[q|q|]|[q|q|]|]|[[q|q|]|[q|q|]|]|]
                |[[[q|q|]|[q|q|]|]|[[q|q|]|[q|q|]|]|]|].
  all: try (cbn [HexString.Raw.of_pos String.length];
            split; [intros H; unfold allHex in *; simpl; exact H
                   | split; [lia | rewrite Nat.sub_diag; simpl; lia]]).
  all: match goal with
       | |- context [HexString.Raw.of_pos ?q0 ?r] =>
           match eval cbn [HexString.Raw.of_pos] in (HexString.Raw.of_pos q0 r)
           with
           | HexString.Raw.of_pos ?q' (String ?c _) =>
               apply (step q' c (Npos q0 - 16 * Npos q')%N);
                 [reflexivity | lia | reflexivity | apply of_pos_digits]
           end
       end.
Qed.

Lemma BN_toString_hex_allHex (bn : N) : allHex (BN_toString_hex bn) = true.
Proof.
  destruct bn as [|q]; [reflexivity|].
  apply (of_pos_digits q EmptyString). reflexivity.
Qed.

Lemma BN_toString_hex_length (bn : N) (k : nat) :
  (bn < 16 ^ N.of_nat k)%N -> (1 <= k)%nat ->
  (String.length (BN_toString_hex bn) <= k)%nat.
Proof.
  intros B K. destruct bn as [|q]; [simpl; lia|].
  destruct (of_pos_digits q EmptyString) as (_ & L & P).
  simpl in *.
  destruct (Nat.le_gt_cases (String.length (HexString.Raw.of_pos q EmptyString)) k)
    as [|Hgt]; [assumption|exfalso].
  assert ((16 ^ N.of_nat k
           <= 16 ^ N.of_nat (String.length (HexString.Raw.of_pos q "") - 1))%N)
    by (apply N.pow_le_mono_r; lia).
  lia.
Qed.

Lemma to_N_zeros (k : nat) (s : string) :
  HexString.Raw.to_N (zeros k ++ s) 0%N = HexString.Raw.to_N s 0%N.
Proof.
  induction k as [|k IH]; [reflexivity|]. simpl. exact IH.
Qed.

Lemma to_N_BN_toString_hex (bn : N) :
  HexString.Raw.to_N (BN_toString_hex bn) 0%N = bn.
Proof.
  destruct bn as [|q]; [reflexivity|].
  simpl. rewrite HexString.Raw.to_N_of_pos. reflexivity.
Qed.

(** ** [getHexFromBN] *)

Lemma getHexFromBN_short (bnInput : N) :
  (String.length (BN_toString_hex bnInput) <= 64)%nat ->
  getHexFromBN bnInput
    = inr (zeros (64 - String.length (BN_toString_hex bnInput))
           ++ BN_toString_hex bnInput)%string.
Proof.
  intros L. unfold getHexFromBN.
  destruct (String.length (BN_toString_hex bnInput) =? 64)%nat eqn:E.
  - apply Nat.eqb_eq in E. rewrite E. reflexivity.
  - apply Nat.eqb_neq in E.
    destruct (String.length (BN_toString_hex bnInput) <? 64)%nat eqn:E2;
      [reflexivity|].
    apply Nat.ltb_ge in E2. lia.
Qed.

(** C6. When the natural hex form of the number has at most 64 digits,
    [getHexFromBN] returns exactly 64 hex digits: that form behind as many
    zeros as it lacks (so the number read back is the same).  When it has
    more than 64 digits, [getHexFromBN] throws its encoding error. *)
Theorem getHexFromBN_correct (bnInput : N) :
  let hexOut := BN_toString_hex bnInput in
  ((String.length hexOut <= 64)%nat ->
   exists out : string,
     getHexFromBN bnInput = inr out
     /\ String.length out = 64%nat
     /\ out = (zeros (64 - String.length hexOut) ++ hexOut)%string
     /\ allHex out = true
     /\ HexString.Raw.to_N out 0%N = bnInput)
  /\ ((64 < String.length hexOut)%nat ->
      getHexFromBN bnInput = inl BN_TOO_LONG).
Proof.
  intros hexOut. split.
  - intros L. eexists. split; [apply getHexFromBN_short, L|].
    fold hexOut. repeat split.
    + rewrite length_append, length_zeros. lia.
    + rewrite allHex_append, allHex_zeros. apply BN_toString_hex_allHex.
    + rewrite to_N_zeros. apply to_N_BN_toString_hex.
  - intros L. unfold getHexFromBN. fold hexOut.
    destruct (String.length hexOut =? 64)%nat eqn:E;
      [apply Nat.eqb_eq in E; lia|].
    destruct (String.length hexOut <? 64)%nat eqn:E2;
      [apply Nat.ltb_lt in E2; lia|reflexivity].
Qed.

(** Witness for C6, at two numbers: 255 has two digits, 2^256 has 65. *)
Lemma getHexFromBN_correct_witness :
  (exists out : string,
      getHexFromBN 255 = inr out /\ String.length out = 64%nat
      /\ out = (zeros 62 ++ "ff")%string)
  /\ getHexFromBN (2 ^ 256) = inl BN_TOO_LONG.
Proof.
  split.
  - destruct (proj1 (getHexFromBN_correct 255)) as (out & E & L & P & _).
    + simpl. lia.
    + exists out. repeat split; assumption.
  - apply (proj2 (getHexFromBN_correct (2 ^ 256))). vm_compute. lia.
Defined.

(** ** UTF-8: writing a well-formed string and reading it back *)

Lemma utf8Slice_utf8Bytes_bmp (c : Z) (rest : Buffer) :
  0 <= c < 0x10000 -> c < 0xD800 \/ 0xDFFF < c ->
  utf8Slice (utf8Bytes c ++ rest) = c :: utf8Slice rest.
Proof.
  intros R S. unfold utf8Bytes.
  destruct (Z.ltb_spec c 0x80);
    [|destruct (Z.ltb_spec c 0x800);
      [|destruct (Z.ltb_spec c 0x10000); [|lia]]];
    cbn [app utf8Slice]; unfold isCont, contBits;
    rewrite ?byte_to_of_Z by divmod_lia;
    repeat decide_test; f_equal; divmod_lia.
Qed.

Lemma utf8Slice_utf8Bytes_supplementary (c : Z) (rest : Buffer) :
  0x10000 <= c < 0x110000 ->
  utf8Slice (utf8Bytes c ++ rest) = codeUnits c ++ utf8Slice rest.
Proof.
  intros R. unfold utf8Bytes.
  destruct (Z.ltb_spec c 0x80); [lia|].
  destruct (Z.ltb_spec c 0x800); [lia|].
  destruct (Z.ltb_spec c 0x10000); [lia|].
  cbn [app utf8Slice]; unfold isCont, contBits.
  rewrite ?byte_to_of_Z by divmod_lia.
  repeat decide_test; f_equal; f_equal; divmod_lia.
Qed.

Lemma codeUnits_pair (u u2 : Z) :
  isHighSurrogate u = true -> isLowSurrogate u2 = true ->
  codeUnits (0x10000 + (u - 0xD800) * 0x400 + (u2 - 0xDC00)) = [u; u2].
Proof.
  unfold isHighSurrogate, isLowSurrogate, codeUnits. intros H L.
  apply andb_true_iff in H, L. rewrite !Z.leb_le in H, L.
  repeat decide_test. f_equal; [|f_equal]; divmod_lia.
Qed.

Lemma utf8Slice_utf8Write_bounded (k : nat) :
  forall s : jsstring,
    (List.length s <= k)%nat -> isWellFormed s = true ->
    utf8Slice (utf8Write s) = s.
Proof.
  induction k as [|k IH]; intros [|u r] L W; try reflexivity;
    simpl in L; [lia|].
  cbn [isWellFormed utf8Write] in *.
  destruct (isHighSurrogate u) eqn:Hu.
  - destruct r as [|u2 r2]; [discriminate|].
    apply andb_true_iff in W. destruct W as [Hl W]. rewrite Hl.
    rewrite utf8Slice_utf8Bytes_supplementary.
    + rewrite codeUnits_pair by assumption. simpl in L.
      rewrite IH by (assumption || lia). reflexivity.
    + unfold isHighSurrogate, isLowSurrogate in *.
      apply andb_true_iff in Hu, Hl. rewrite !Z.leb_le in Hu, Hl. lia.
  - rewrite !andb_true_iff in W. destruct W as [[[Hl H0] H1] W].
    apply negb_true_iff in Hl. rewrite Hl.
    rewrite utf8Slice_utf8Bytes_bmp.
    + rewrite IH by (assumption || lia). reflexivity.
    + apply Z.leb_le in H0. apply Z.ltb_lt in H1. lia.
    + unfold isHighSurrogate, isLowSurrogate in *.
      apply andb_false_iff in Hu, Hl. rewrite !Z.leb_gt in Hu, Hl. lia.
Qed.

Lemma utf8Slice_utf8Write (s : jsstring) :
  isWellFormed s = true -> utf8Slice (utf8Write s) = s.
Proof.
  apply (utf8Slice_utf8Write_bounded (List.length s)). lia.
Qed.

(** ** Decryption: the MAC is checked before anything is deciphered *)

Section Decryption.
Context `{crypto : Crypto} `{ecurve : EllipticCurve}.

(** [decryptECIES] in closed form: the error of the key agreement, or the
    MAC error after two [crypto] calls, or the decipher's answer after
    three. *)
Lemma decryptECIES_eq (sk : string) (o : CipherObject) :
  decryptECIES sk o =
  match keyAgreement sk (ephemeralPK o) with
  | inl e => (inl e, [])
  | inr (P, secret) =>
      let keys := keysOf secret in
      let ivBuffer := hexDecode (iv o) in
      let cipherTextBuffer := hexDecode (cipherText o) in
      let data := macInput ivBuffer P cipherTextBuffer in
      if equalConstTime (hexDecode (mac o)) (macOf secret P o)
      then
        (match aes_256_cbc_decipher (encryptionKey keys) ivBuffer
                 cipherTextBuffer with
         | inl e => inl e
         | inr plainText =>
             inr (if wasString o then Str (utf8Slice plainText)
                  else Buf plainText)
         end,
         [CreateHash "sha512" secret;
          CreateHmac "sha256" (hmacKey keys) data;
          CreateDecipheriv "aes-256-cbc" (encryptionKey keys) ivBuffer
            cipherTextBuffer])
      else
        (inl MAC_CHECK_FAILED,
         [CreateHash "sha512" secret;
          CreateHmac "sha256" (hmacKey keys) data])
  end.
Proof.
  unfold decryptECIES, keyAgreement, macOf, lift, bind.
  destruct (keyFromPrivate sk) as [e|ecSK]; [reflexivity|].
  destruct (keyFromPublic (ephemeralPK o)) as [e|Ke]; [reflexivity|].
  destruct (derive ecSK (getPublic Ke)) as [e|s]; [reflexivity|].
  destruct (getHexFromBN s) as [e|hex]; [reflexivity|].
  cbn.
  destruct (equalConstTime _ _); cbn; [|reflexivity].
  destruct (aes_256_cbc_decipher _ _ _) as [e|pt]; cbn; [reflexivity|].
  destruct (wasString o); reflexivity.
Qed.

Lemma decryptECIES_no_agreement (sk : string) (o : CipherObject) (e : exn) :
  keyAgreement sk (ephemeralPK o) = inl e ->
  rejected (decryptECIES sk o) e.
Proof.
  intros A. unfold rejected. rewrite decryptECIES_eq, A. split; reflexivity.
Qed.

Lemma decryptECIES_mac_differs (sk : string) (o : CipherObject)
    (P : Point) (secret : Buffer) :
  keyAgreement sk (ephemeralPK o) = inr (P, secret) ->
  macOf secret P o <> hexDecode (mac o) ->
  rejected (decryptECIES sk o) MAC_CHECK_FAILED.
Proof.
  intros A D. unfold rejected. rewrite decryptECIES_eq, A. cbv zeta.
  rewrite equalConstTime_false by (intros E; apply D; symmetry; exact E).
  split; reflexivity.
Qed.

(** C2. A failed key agreement ends the run before any [crypto] call.
    Once the keys are agreed, [decryptECIES] computes the MAC over
    iv, compressed ephemeral key and cipher text, in that order and under
    the derived MAC key, and compares it with [equalConstTime]; on a
    mismatch it throws the MAC error and the decipher is never created.
    In every run, a decipher call or a returned plaintext implies that the
    comparison succeeded and that the decipher call is the last one, after
    the MAC was computed. *)
Theorem decryptECIES_verifies_before_decrypting
    (sk : string) (o : CipherObject) :
  (forall e : exn,
      keyAgreement sk (ephemeralPK o) = inl e ->
      decryptECIES sk o = (inl e, []))
  /\ (forall (P : Point) (secret : Buffer),
      keyAgreement sk (ephemeralPK o) = inr (P, secret) ->
      equalConstTime (hexDecode (mac o))
        (hmac_sha256 (hmacKey (keysOf secret))
           (hexDecode (iv o) ++ encodeCompressed P
              ++ hexDecode (cipherText o))) = false ->
      decryptECIES sk o
      = (inl MAC_CHECK_FAILED,
         [CreateHash "sha512" secret;
          CreateHmac "sha256" (hmacKey (keysOf secret))
            (hexDecode (iv o) ++ encodeCompressed P
               ++ hexDecode (cipherText o))]))
  /\ (existsb isDecipher (calls (decryptECIES sk o)) = true
      \/ (exists v, outcome (decryptECIES sk o) = inr v) ->
      exists (P : Point) (secret : Buffer),
        keyAgreement sk (ephemeralPK o) = inr (P, secret)
        /\ equalConstTime (hexDecode (mac o))
             (hmac_sha256 (hmacKey (keysOf secret))
                (hexDecode (iv o) ++ encodeCompressed P
                   ++ hexDecode (cipherText o))) = true
        /\ calls (decryptECIES sk o)
           = [CreateHash "sha512" secret;
              CreateHmac "sha256" (hmacKey (keysOf secret))
                (hexDecode (iv o) ++ encodeCompressed P
                   ++ hexDecode (cipherText o));
              CreateDecipheriv "aes-256-cbc" (encryptionKey (keysOf secret))
                (hexDecode (iv o)) (hexDecode (cipherText o))]).
Proof.
  rewrite decryptECIES_eq. split; [|split].
  - intros e ->. reflexivity.
  - intros P secret -> E. cbv zeta. unfold macOf, macInput. rewrite E.
    reflexivity.
  - destruct (keyAgreement sk (ephemeralPK o)) as [e|[P secret]].
    + intros [D|[v D]]; discriminate.
    + cbv zeta. unfold macOf, macInput.
      destruct (equalConstTime _ _) eqn:E.
      * intros _. exists P, secret. auto.
      * intros [D|[v D]]; discriminate.
Qed.

(** C9, corrected.  When the [mac] field decodes to a buffer that is
    not 32 bytes long, [decryptECIES] never returns a plaintext and never
    creates the decipher; and whenever the key agreement succeeds, the
    error it throws is the MAC error. *)
Theorem decryptECIES_mac_of_wrong_length
    (hmac_size : forall k d, List.length (hmac_sha256 k d) = 32%nat)
    (sk : string) (o : CipherObject) :
  List.length (hexDecode (mac o)) <> 32%nat ->
  (exists e, outcome (decryptECIES sk o) = inl e)
  /\ existsb isDecipher (calls (decryptECIES sk o)) = false
  /\ (forall (P : Point) (secret : Buffer),
         keyAgreement sk (ephemeralPK o) = inr (P, secret) ->
         outcome (decryptECIES sk o) = inl MAC_CHECK_FAILED).
Proof.
  intros L. rewrite decryptECIES_eq.
  destruct (keyAgreement sk (ephemeralPK o)) as [e|[P secret]].
  - split; [exists e; reflexivity|]. split; [reflexivity|].
    intros ? ? D. discriminate.
  - cbv zeta.
    assert (equalConstTime (hexDecode (mac o)) (macOf secret P o) = false)
      as ->.
    { apply equalConstTime_length. unfold macOf. rewrite hmac_size.
      exact L. }
    split; [exists MAC_CHECK_FAILED; reflexivity|].
    split; reflexivity.
Qed.

(** C10. [decryptECIES] uses the [ephemeralPK] field only through the
    point it parses to: the MAC input holds the compressed encoding of
    that point, whatever the spelling received, so two spellings of one
    point give the same run (same [crypto] calls, same outcome). *)
Theorem decryptECIES_uses_the_parsed_point
    (sk hex : string) (o : CipherObject) (K1 K2 : KeyPair) :
  keyFromPublic (ephemeralPK o) = inr K1 ->
  keyFromPublic hex = inr K2 ->
  getPublic K2 = getPublic K1 ->
  decryptECIES sk (withEphemeralPK hex o) = decryptECIES sk o
  /\ (forall (P : Point) (secret : Buffer),
         keyAgreement sk hex = inr (P, secret) ->
         P = getPublic K1
         /\ In (CreateHmac "sha256" (hmacKey (keysOf secret))
                  (hexDecode (iv o) ++ encodeCompressed (getPublic K1)
                     ++ hexDecode (cipherText o)))
               (calls (decryptECIES sk (withEphemeralPK hex o)))).
Proof.
  intros E1 E2 EP.
  assert (keyAgreement sk hex = keyAgreement sk (ephemeralPK o)) as A.
  { unfold keyAgreement. rewrite E1, E2, EP. reflexivity. }
  split.
  - rewrite !decryptECIES_eq. cbn [withEphemeralPK ephemeralPK].
    rewrite A. reflexivity.
  - intros P secret D. rewrite decryptECIES_eq.
    cbn [withEphemeralPK ephemeralPK iv cipherText mac wasString].
    rewrite D. cbv zeta.
    assert (P = getPublic K1) as ->.
    { unfold keyAgreement in D. rewrite E2, EP in D.
      destruct (keyFromPrivate sk); [discriminate|].
      destruct (derive _ _); [discriminate|].
      destruct (getHexFromBN _); [discriminate|].
      inversion D. reflexivity. }
    split; [reflexivity|].
    unfold macInput. destruct (equalConstTime _ _); simpl; auto.
Qed.

End Decryption.

(** ** Encryption followed by decryption *)

Lemma byte_to_of_Z_mod (z : Z) : byte_to_Z (byte_of_Z z) = z mod 256.
Proof.
  rewrite <- (byte_to_of_Z (z mod 256)) by (apply Z.mod_pos_bound; lia).
  unfold byte_of_Z. rewrite Z.mod_mod by lia. reflexivity.
Qed.

Lemma flipBit_length (i : nat) (b : Buffer) :
  List.length (flipBit i b) = List.length b.
Proof.
  revert i. induction b as [|x r IH]; intros i; [reflexivity|].
  cbn [flipBit]. destruct (i <? 8)%nat; simpl; auto.
Qed.

(** A flipped bit changes the buffer. *)
Lemma flipBit_changes (i : nat) (b : Buffer) :
  (i < 8 * List.length b)%nat -> flipBit i b <> b.
Proof.
  revert i. induction b as [|x r IH]; intros i L; simpl in L; [lia|].
  cbn [flipBit]. destruct (i <? 8)%nat eqn:E.
  - apply Nat.ltb_lt in E. intros D. inversion D as [D'].
    apply (f_equal byte_to_Z) in D'. rewrite byte_to_of_Z_mod in D'.
    apply (f_equal (fun z => Z.testbit z (Z.of_nat i))) in D'.
    change 256 with (2 ^ 8) in D'.
    rewrite Z.mod_pow2_bits_low, Z.lxor_spec, Z.pow2_bits_true in D' by lia.
    destruct (Z.testbit (byte_to_Z x) (Z.of_nat i)); discriminate.
  - apply Nat.ltb_ge in E. intros D. inversion D as [D'].
    revert D'. apply IH. lia.
Qed.

Lemma getHexFromBN_in_field (secret : N) :
  (secret < 2 ^ 256)%N ->
  exists hex : string,
    getHexFromBN secret = inr hex /\ hexDecode hex = paddedSecret secret.
Proof.
  intros B. eexists. split; [|reflexivity].
  apply getHexFromBN_short, BN_toString_hex_length; [|lia].
  replace (16 ^ N.of_nat 64)%N with (2 ^ 256)%N by reflexivity. exact B.
Qed.

Section RoundTrip.
Context `{crypto : Crypto} `{ecurve : EllipticCurve}.

Hypothesis sha512_size : forall d, List.length (sha512 d) = 64%nat.
Hypothesis aes_inverse :
  forall key iv plaintext : Buffer,
    List.length key = 32%nat -> List.length iv = 16%nat ->
    exists ciphertext,
      aes_256_cbc_cipher key iv plaintext = inr ciphertext
      /\ aes_256_cbc_decipher key iv ciphertext = inr plaintext.

Variables (sk pk : string) (K : KeyPair) (rnd : entropy) (secret : N).
Hypothesis keypair : isKeyPair sk pk K.
Hypothesis ephemeral : transmissible (genKeyPair rnd).
Hypothesis agreement : agree K (genKeyPair rnd) secret.
Hypothesis iv_size : List.length (randomBytes16 rnd) = 16%nat.

Lemma encryptionKey_size (s : Buffer) :
  List.length (encryptionKey (keysOf s)) = 32%nat.
Proof.
  unfold keysOf. cbn [encryptionKey]. rewrite length_firstn, sha512_size.
  reflexivity.
Qed.

(** What [encryptECIES] returns under these assumptions. *)
Lemma encryptECIES_result (m : content) :
  let keys := keysOf (paddedSecret secret) in
  let P := getPublic (genKeyPair rnd) in
  exists ct : Buffer,
    aes_256_cbc_decipher (encryptionKey keys) (randomBytes16 rnd) ct
      = inr (Buffer_from m)
    /\ outcome (encryptECIES rnd pk m)
       = inr {| iv := hexEncode (randomBytes16 rnd);
                ephemeralPK := hexEncode (encodeCompressed P);
                cipherText := hexEncode ct;
                mac := hexEncode
                         (hmac_sha256 (hmacKey keys)
                            (macInput (randomBytes16 rnd) P ct));
                wasString := isString m |}.
Proof.
  intros keys P.
  destruct keypair as (_ & Kp & EKp & EP).
  destruct agreement as (D & _ & B).
  destruct (aes_inverse (encryptionKey keys) (randomBytes16 rnd)
              (Buffer_from m) (encryptionKey_size _) iv_size)
    as (ct & Ec & Ed).
  exists ct. split; [exact Ed|].
  destruct (getHexFromBN_in_field secret B) as (hex & Hx & Hx').
  unfold encryptECIES, outcome, lift, called, bind.
  rewrite EKp, EP, D, Hx.
  unfold sharedSecretToKeys, aes256CbcEncrypt, hmacSha256, called, ret, bind.
  cbv beta iota zeta. rewrite Hx'. cbn [encryptionKey hmacKey].
  change (firstn 32 (sha512 (paddedSecret secret)))
    with (encryptionKey keys).
  rewrite Ec. reflexivity.
Qed.

(** The recipient agrees on the same secret from the transmitted key. *)
Lemma keyAgreement_of_recipient :
  exists Ke : KeyPair,
    getPublic Ke = getPublic (genKeyPair rnd)
    /\ keyAgreement sk
         (hexEncode (encodeCompressed (getPublic (genKeyPair rnd))))
       = inr (getPublic Ke, paddedSecret secret).
Proof.
  destruct keypair as (EK & _).
  destruct ephemeral as (Ke & EKe & EP).
  destruct agreement as (_ & D & B).
  exists Ke. split; [exact EP|].
  destruct (getHexFromBN_in_field secret B) as (hex & Hx & Hx').
  unfold keyAgreement. rewrite EK, EKe, EP, D, Hx, Hx'. reflexivity.
Qed.

(** Decrypting what was encrypted gives the content back as [Buffer.from]
    and [toString] leave it. *)
Lemma encrypt_then_decrypt (m : content) :
  exists o : CipherObject,
    outcome (encryptECIES rnd pk m) = inr o
    /\ wasString o = isString m
    /\ outcome (decryptECIES sk o) = inr (readBack m).
Proof.
  destruct (encryptECIES_result m) as (ct & Ed & Eo).
  destruct keyAgreement_of_recipient as (Ke & EP & A).
  eexists. split; [exact Eo|]. split; [reflexivity|].
  rewrite decryptECIES_eq.
  cbn [iv ephemeralPK cipherText mac wasString]. rewrite A. cbv zeta.
  unfold macOf. cbn [iv ephemeralPK cipherText mac wasString].
  rewrite !hexDecode_hexEncode. unfold macInput. rewrite EP.
  rewrite equalConstTime_refl. unfold outcome. cbn [fst].
  rewrite Ed. destruct m; reflexivity.
Qed.

(** C1, corrected.  For a key pair [(sk, pk)], any random draws and any
    content that is a buffer or a well-formed string (no lone surrogate),
    [decryptECIES sk (encryptECIES pk m)] returns [m], in the
    representation [m] had: [wasString] records it. *)
Theorem encrypt_decrypt_roundtrip (m : content) :
  wellFormedContent m ->
  exists o : CipherObject,
    outcome (encryptECIES rnd pk m) = inr o
    /\ wasString o = isString m
    /\ outcome (decryptECIES sk o) = inr m.
Proof.
  intros W. destruct (encrypt_then_decrypt m) as (o & Eo & Ws & Ed).
  exists o. repeat split; try assumption.
  rewrite Ed. destruct m as [s|b]; [|reflexivity].
  cbn in *. rewrite utf8Slice_utf8Write by exact W. reflexivity.
Qed.

(** A string that is one lone surrogate comes back as U+FFFD, whatever
    the libraries are. *)
Lemma lone_surrogate_is_replaced :
  exists o : CipherObject,
    outcome (encryptECIES rnd pk (Str [0xD800])) = inr o
    /\ outcome (decryptECIES sk o) = inr (Str [0xFFFD]).
Proof.
  destruct (encrypt_then_decrypt (Str [0xD800])) as (o & Eo & _ & Ed).
  exists o. split; [exact Eo|]. rewrite Ed. reflexivity.
Qed.

Hypothesis hmac_size : forall k d, List.length (hmac_sha256 k d) = 32%nat.

(** C3, corrected.  Take a cipher object made by [encryptECIES] and flip
    one bit of one field.
    - A flipped bit of [mac] always ends in the MAC error.
    - A flipped bit of [iv] or of [cipherText] ends in the MAC error,
      unless HMAC-SHA256 under the derived key collides on the original
      and the altered MAC input.
    - A flipped bit of [ephemeralPK] ends in the error of the key
      agreement when the altered key does not parse or derive.  When it
      still parses, and the parser does not read the altered bytes as the
      point of the original ones, the run ends in the MAC error, unless
      HMAC-SHA256 gives the stored MAC again for the altered input under
      the key derived anew.
    In each of these cases no decipher is created and no plaintext is
    returned. *)
Theorem tampering_is_rejected (m : content) (o : CipherObject) :
  outcome (encryptECIES rnd pk m) = inr o ->
  let P := getPublic (genKeyPair rnd) in
  let hk := hmacKey (keysOf (paddedSecret secret)) in
  let ivBuffer := hexDecode (iv o) in
  let cipherTextBuffer := hexDecode (cipherText o) in
  (forall i, (i < 8 * 32)%nat ->
     rejected (decryptECIES sk (tamper Mac i o)) MAC_CHECK_FAILED)
  /\ (forall i, (i < 8 * 16)%nat ->
        noCollision hk (macInput (flipBit i ivBuffer) P cipherTextBuffer)
                    (macInput ivBuffer P cipherTextBuffer) ->
        rejected (decryptECIES sk (tamper Iv i o)) MAC_CHECK_FAILED)
  /\ (forall i, (i < 8 * List.length cipherTextBuffer)%nat ->
        noCollision hk (macInput ivBuffer P (flipBit i cipherTextBuffer))
                    (macInput ivBuffer P cipherTextBuffer) ->
        rejected (decryptECIES sk (tamper CipherText i o)) MAC_CHECK_FAILED)
  /\ (forall i, (i < 8 * List.length (encodeCompressed P))%nat ->
        match keyAgreement sk (ephemeralPK (tamper EphemeralPK i o)) with
        | inl e => rejected (decryptECIES sk (tamper EphemeralPK i o)) e
        | inr (P', secret') =>
            (encodeCompressed P' = encodeCompressed P ->
             hexDecode (ephemeralPK (tamper EphemeralPK i o))
             = hexDecode (ephemeralPK o)) ->
            noCollisionAcross
              (hmacKey (keysOf secret'))
              (macInput ivBuffer P' cipherTextBuffer)
              hk (macInput ivBuffer P cipherTextBuffer) ->
            rejected (decryptECIES sk (tamper EphemeralPK i o))
                     MAC_CHECK_FAILED
        end).
Proof.
  intros Eo P hk ivBuffer cipherTextBuffer.
  destruct (encryptECIES_result m) as (ct & _ & Eo').
  rewrite Eo in Eo'.
  assert (Ho := f_equal (fun r : result CipherObject =>
                           match r with inr x => x | inl _ => o end) Eo').
  cbv beta iota in Ho. clear Eo Eo'.
  assert (Hiv : iv o = hexEncode (randomBytes16 rnd))
    by (rewrite Ho; reflexivity).
  assert (Hpk : ephemeralPK o = hexEncode (encodeCompressed P))
    by (rewrite Ho; reflexivity).
  assert (Hct : cipherText o = hexEncode ct) by (rewrite Ho; reflexivity).
  assert (Hmac : mac o
                 = hexEncode (hmac_sha256 hk (macInput (randomBytes16 rnd) P ct)))
    by (rewrite Ho; reflexivity).
  clear Ho.
  destruct keyAgreement_of_recipient as (Ke & EP & A).
  fold P in A, EP.
  assert (At : forall f i, f <> EphemeralPK ->
               keyAgreement sk (ephemeralPK (tamper f i o))
               = inr (getPublic Ke, paddedSecret secret)).
  { intros f i Hf. destruct f; try contradiction;
      cbn [tamper ephemeralPK]; rewrite Hpk; exact A. }
  subst ivBuffer cipherTextBuffer. rewrite Hiv, Hct, !hexDecode_hexEncode.
  split; [|split; [|split]].
  - intros i Li.
    apply (decryptECIES_mac_differs _ _ _ _ (At Mac i ltac:(discriminate))).
    unfold macOf, macInput. cbn [tamper iv cipherText mac].
    rewrite Hiv, Hct, Hmac, !hexDecode_hexEncode, EP.
    intros D. symmetry in D. revert D. apply flipBit_changes.
    unfold hk. rewrite hmac_size. exact Li.
  - intros i Li NC.
    apply (decryptECIES_mac_differs _ _ _ _ (At Iv i ltac:(discriminate))).
    unfold macOf, macInput. cbn [tamper iv cipherText mac].
    rewrite Hiv, Hct, Hmac, !hexDecode_hexEncode, EP.
    intros D. apply NC in D. unfold macInput in D.
    apply app_inv_tail in D. revert D. apply flipBit_changes.
    rewrite iv_size. exact Li.
  - intros i Li NC.
    apply (decryptECIES_mac_differs _ _ _ _
             (At CipherText i ltac:(discriminate))).
    unfold macOf, macInput. cbn [tamper iv cipherText mac].
    rewrite Hiv, Hct, Hmac, !hexDecode_hexEncode, EP.
    intros D. apply NC in D. unfold macInput in D.
    apply app_inv_head in D. apply app_inv_head in D.
    revert D. apply flipBit_changes. exact Li.
  - intros i Li.
    destruct (keyAgreement sk (ephemeralPK (tamper EphemeralPK i o)))
      as [e|[P' secret']] eqn:A'.
    + apply decryptECIES_no_agreement. exact A'.
    + intros Canon NC. apply (decryptECIES_mac_differs _ _ _ _ A').
      unfold macOf. cbn [tamper iv cipherText mac].
      rewrite Hiv, Hct, Hmac, !hexDecode_hexEncode.
      intros D. apply NC in D. unfold macInput in D.
      apply app_inv_head in D. apply app_inv_tail in D.
      apply Canon in D. cbn [tamper ephemeralPK] in D.
      rewrite Hpk, !hexDecode_hexEncode in D.
      revert D. apply flipBit_changes. exact Li.
Qed.

End RoundTrip.

(** ** Key derivation *)

Section KeyDerivation.
Context `{crypto : Crypto}.

(** C5. [sharedSecretToKeys] never throws; its only [crypto] call hashes
    the secret with SHA-512; the encryption key is the first 32 bytes of
    the digest and the MAC key the remaining 32; and deriving twice from
    one secret gives the same pair twice. *)
Theorem sharedSecretToKeys_correct
    (sha512_size : forall d, List.length (sha512 d) = 64%nat)
    (sharedSecret : Buffer) :
  exists k : sharedKeys,
    sharedSecretToKeys sharedSecret
      = (inr k, [CreateHash "sha512" sharedSecret])
    /\ encryptionKey k = firstn 32 (sha512 sharedSecret)
    /\ hmacKey k = skipn 32 (sha512 sharedSecret)
    /\ List.length (encryptionKey k) = 32%nat
    /\ List.length (hmacKey k) = 32%nat
    /\ outcome (k1 <- sharedSecretToKeys sharedSecret ;;
                k2 <- sharedSecretToKeys sharedSecret ;;
                ret (k1, k2)) = inr (k, k).
Proof.
  exists {| encryptionKey := firstn 32 (sha512 sharedSecret);
            hmacKey := skipn 32 (sha512 sharedSecret) |}.
  cbn [encryptionKey hmacKey].
  rewrite length_firstn, length_skipn, sha512_size.
  repeat split; reflexivity.
Qed.

End KeyDerivation.

(** ** Signatures *)

Section Signing.
Context `{crypto : Crypto} `{ecurve : EllipticCurve} `{keys : Keys}.

Lemma verifyECDSA_eq (m : content) (pk sig : string) :
  verifyECDSA m pk sig =
  match keyFromPublic pk with
  | inl e => (inl e, [])
  | inr K =>
      (verify K (sha256 (Buffer_from m)) sig,
       [CreateHash "sha256" (Buffer_from m)])
  end.
Proof.
  unfold verifyECDSA, lift, called, bind.
  destruct (keyFromPublic pk); reflexivity.
Qed.

(** [verifyECDSA] sees the content only through its bytes. *)
Lemma verifyECDSA_same_bytes (m1 m2 : content) (pk sig : string) :
  Buffer_from m1 = Buffer_from m2 ->
  verifyECDSA m1 pk sig = verifyECDSA m2 pk sig.
Proof.
  intros E. rewrite !verifyECDSA_eq, E. reflexivity.
Qed.

Lemma signECDSA_result (sk pkOut : string) (K Kp : KeyPair) (m : content) :
  keyFromPrivate sk = inr K ->
  getPublicKeyFromPrivate sk = inr pkOut ->
  ECDSA_correct K Kp ->
  exists sg,
    outcome (signECDSA sk m)
      = inr {| signature := toDER sg; publicKey := pkOut |}
    /\ verify Kp (sha256 (Buffer_from m)) (toDER sg) = inr true.
Proof.
  intros EK EO C.
  destruct (C (sha256 (Buffer_from m))) as (sg & ES & EV).
  exists sg. split; [|assumption].
  unfold signECDSA, lift, called, bind, outcome.
  rewrite EK, EO. cbv beta iota. rewrite ES. reflexivity.
Qed.

(** C4, corrected.  On a key pair for which the library's ECDSA is
    correct, the signature [signECDSA] makes over [m] verifies over [m],
    and over every content with the same bytes.  Given that signature,
    [verifyECDSA] returns [false], after hashing and without throwing,
    - over content with other bytes, when SHA-256 does not collide on the
      two byte strings and the library's check tells the two digests
      apart;
    - under a public key that parses to another point, when the library's
      check tells the two keys apart. *)
Theorem sign_then_verify
    (sk pk pkOut : string) (K Kp : KeyPair) (m : content) :
  keyFromPrivate sk = inr K ->
  keyFromPublic pk = inr Kp ->
  getPublicKeyFromPrivate sk = inr pkOut ->
  ECDSA_correct K Kp ->
  exists s : signed,
    outcome (signECDSA sk m) = inr s
    /\ publicKey s = pkOut
    /\ outcome (verifyECDSA m pk (signature s)) = inr true
    /\ (forall m' : content,
          Buffer_from m' = Buffer_from m ->
          outcome (verifyECDSA m' pk (signature s)) = inr true)
    /\ (forall m' : content,
          Buffer_from m' <> Buffer_from m ->
          sha256_separates (Buffer_from m') (Buffer_from m) ->
          rejectsOtherDigest Kp (signature s)
            (sha256 (Buffer_from m)) (sha256 (Buffer_from m')) ->
          verifyECDSA m' pk (signature s)
          = (inr false, [CreateHash "sha256" (Buffer_from m')]))
    /\ (forall (pk' : string) (Kp' : KeyPair),
          keyFromPublic pk' = inr Kp' ->
          getPublic Kp' <> getPublic Kp ->
          rejectsOtherKey Kp Kp' (signature s) (sha256 (Buffer_from m)) ->
          verifyECDSA m pk' (signature s)
          = (inr false, [CreateHash "sha256" (Buffer_from m)])).
Proof.
  intros EK EKp EO C.
  destruct (signECDSA_result sk pkOut K Kp m EK EO C) as (sg & ES & EV).
  eexists. split; [exact ES|]. split; [reflexivity|].
  cbn [signature].
  assert (V : outcome (verifyECDSA m pk (toDER sg)) = inr true)
    by (rewrite verifyECDSA_eq, EKp; exact EV).
  split; [exact V|]. split; [|split].
  - intros m' E. rewrite (verifyECDSA_same_bytes m' m pk _ E). exact V.
  - intros m' NE S R. rewrite verifyECDSA_eq, EKp.
    rewrite (R EV); [reflexivity|]. intros D. apply NE, S, D.
  - intros pk' Kp' EK' NP R. rewrite verifyECDSA_eq, EK'.
    rewrite (R EV NP). reflexivity.
Qed.

(** C8, corrected.  [verifyECDSA] hands on what the library throws and
    answers: the error of [keyFromPublic], before anything is hashed, when
    it refuses the public key; the error of [key.verify], after the hash,
    when that throws (as on a signature whose DER does not import).  It
    never turns an error into [false], and it returns a boolean only when
    the key was accepted and [key.verify] gave that boolean.  Input that
    the library accepts is not examined further, malformed or not. *)
Theorem verifyECDSA_malformed_input (m : content) (pk sig : string) :
  (forall e,
      keyFromPublic pk = inl e -> verifyECDSA m pk sig = (inl e, []))
  /\ (forall K e,
        keyFromPublic pk = inr K ->
        verify K (sha256 (Buffer_from m)) sig = inl e ->
        verifyECDSA m pk sig
        = (inl e, [CreateHash "sha256" (Buffer_from m)]))
  /\ (forall e,
        outcome (verifyECDSA m pk sig) = inl e ->
        keyFromPublic pk = inl e
        \/ exists K, keyFromPublic pk = inr K
                     /\ verify K (sha256 (Buffer_from m)) sig = inl e)
  /\ (forall b : bool,
        outcome (verifyECDSA m pk sig) = inr b ->
        exists K, keyFromPublic pk = inr K
                  /\ verify K (sha256 (Buffer_from m)) sig = inr b).
Proof.
  rewrite verifyECDSA_eq. split; [|split; [|split]].
  - intros e ->. reflexivity.
  - intros K e -> ->. reflexivity.
  - intros e. destruct (keyFromPublic pk) as [e'|K]; cbn.
    + intros [= ->]. left. reflexivity.
    + intros E. right. exists K. split; [reflexivity|exact E].
  - intros b. destruct (keyFromPublic pk) as [e'|K]; cbn.
    + discriminate.
    + intros E. exists K. split; [reflexivity|exact E].
Qed.

End Signing.

(** ** The small implementation meets the assumptions *)

Lemma Small_digest_size (size : nat) (data : Buffer) :
  List.length (Small.digest size data) = size.
Proof.
  unfold Small.digest. rewrite length_map, length_seq. reflexivity.
Qed.

Lemma Small_sha512_size (d : Buffer) :
  List.length (@sha512 Small.crypto d) = 64%nat.
Proof.
  apply Small_digest_size.
Qed.

Lemma Small_hmac_size (k d : Buffer) :
  List.length (@hmac_sha256 Small.crypto k d) = 32%nat.
Proof.
  apply Small_digest_size.
Qed.

Lemma last_app_repeat (A : Type) (l : list A) (x d : A) (k : nat) :
  last (l ++ repeat x (S k)) d = x.
Proof.
  replace (repeat x (S k)) with (repeat x k ++ [x]).
  - rewrite app_assoc. apply last_last.
  - rewrite <- repeat_cons. reflexivity.
Qed.

Lemma Small_aes_inverse (key iv plaintext : Buffer) :
  List.length key = 32%nat -> List.length iv = 16%nat ->
  exists ciphertext,
    @aes_256_cbc_cipher Small.crypto key iv plaintext = inr ciphertext
    /\ @aes_256_cbc_decipher Small.crypto key iv ciphertext = inr plaintext.
Proof.
  intros Lk Li. cbn [aes_256_cbc_cipher aes_256_cbc_decipher Small.crypto].
  unfold Small.cipher, Small.decipher. rewrite Lk, Li. cbn [Nat.eqb negb].
  eexists. split; [reflexivity|].
  pose proof (Nat.mod_upper_bound (List.length plaintext) 16) as U.
  remember (16 - List.length plaintext mod 16)%nat as k eqn:Ek.
  destruct k as [|k]; [lia|].
  rewrite last_app_repeat, length_app, repeat_length.
  rewrite byte_to_of_Z by lia. rewrite Nat2Z.id.
  replace ((1 <=? S k)%nat && (S k <=? 16)%nat
           && (S k <=? List.length plaintext + S k)%nat) with true.
  - f_equal.
    replace (List.length plaintext + S k - S k)%nat
      with (List.length plaintext) by lia.
    rewrite firstn_app, firstn_all, Nat.sub_diag. cbn [firstn].
    apply app_nil_r.
  - symmetry. rewrite !andb_true_iff, !Nat.leb_le. lia.
Qed.

Lemma Small_isKeyPair :
  @isKeyPair Small.ecurve Small.sk Small.pk Small.recipient.
Proof.
  split; [vm_compute; reflexivity|]. exists Small.recipientPublic.
  split; vm_compute; reflexivity.
Qed.

Lemma Small_transmissible :
  @transmissible Small.ecurve (@genKeyPair Small.ecurve Small.rnd).
Proof.
  exists {| Small.priv := None; Small.pub := Some (25, 18) |}.
  split; vm_compute; reflexivity.
Qed.

Lemma Small_agree :
  @agree Small.ecurve Small.recipient (@genKeyPair Small.ecurve Small.rnd) 21.
Proof.
  repeat split; vm_compute; reflexivity.
Qed.

Lemma Small_ecdsa_checked (z : Z) :
  0 <= z < 31 -> Small.ecdsaCheck z = true.
Proof.
  intros R.
  assert (forallb Small.ecdsaCheck (map Z.of_nat (seq 0 31)) = true) as F
    by (vm_compute; reflexivity).
  rewrite forallb_forall in F. apply F.
  rewrite <- (Z2Nat.id z) by lia. apply in_map, in_seq. lia.
Qed.

Lemma Small_ECDSA_correct :
  @ECDSA_correct Small.ecurve Small.recipient Small.recipientPublic.
Proof.
  intros h.
  cbn [sign toDER verify Small.ecurve].
  unfold Small.ecdsaVerifyDER, Small.ecdsaSign, Small.ecdsaVerify.
  cbn [Small.priv Small.pub Small.recipient Small.recipientPublic].
  pose proof (Small_ecdsa_checked (Small.checksum h mod Small.n)) as C.
  unfold Small.ecdsaCheck in C.
  specialize (C ltac:(apply Z.mod_pos_bound; reflexivity)).
  destruct (Small.signFrom 30 5 (Small.checksum h mod Small.n)
              (5 + Small.checksum h mod Small.n)) as [e|sg];
    [discriminate C|].
  exists sg. split; [reflexivity|].
  destruct (Small.parseDER (Small.der sg)) as [sg'|]; [|discriminate C].
  rewrite C. reflexivity.
Qed.

(** ** The statements at concrete inputs *)

Lemma Small_sample :
  outcome (Small.encrypt Small.rnd Small.pk Small.hi) = inr Small.sample.
Proof.
  vm_compute. reflexivity.
Qed.

(** Witness for C1, on the small implementation: a string with an accent and
    a surrogate pair survives the round trip. *)
Lemma encrypt_decrypt_roundtrip_witness :
  exists o : CipherObject,
    outcome (Small.encrypt Small.rnd Small.pk
               (Str [0x68; 0xE9; 0xD83D; 0xDE00])) = inr o
    /\ wasString o = true
    /\ outcome (Small.decrypt Small.sk o)
       = inr (Str [0x68; 0xE9; 0xD83D; 0xDE00]).
Proof.
  exact (@encrypt_decrypt_roundtrip Small.crypto Small.ecurve
           Small_sha512_size Small_aes_inverse
           Small.sk Small.pk Small.recipient Small.rnd 21%N
           Small_isKeyPair Small_transmissible Small_agree eq_refl
           (Str [0x68; 0xE9; 0xD83D; 0xDE00]) eq_refl).
Defined.

(** Counterexample to C1 as stated: it fails on a string that is a lone
    surrogate: [Buffer.from] writes U+D800 as EF BF BD, and the decrypted
    bytes read back as U+FFFD. *)
Lemma roundtrip_loses_lone_surrogate :
  @isKeyPair Small.ecurve Small.sk Small.pk Small.recipient
  /\ exists o : CipherObject,
    outcome (Small.encrypt Small.rnd Small.pk (Str [0xD800])) = inr o
    /\ wasString o = true
    /\ outcome (Small.decrypt Small.sk o) = inr (Str [0xFFFD])
    /\ outcome (Small.decrypt Small.sk o) <> inr (Str [0xD800]).
Proof.
  destruct (@encrypt_then_decrypt Small.crypto Small.ecurve
              Small_sha512_size Small_aes_inverse
              Small.sk Small.pk Small.recipient Small.rnd 21%N
              Small_isKeyPair Small_transmissible Small_agree eq_refl
              (Str [0xD800])) as (o & Eo & Ew & Ed).
  split; [exact Small_isKeyPair|].
  exists o. unfold Small.encrypt, Small.decrypt.
  repeat split; try assumption.
  rewrite Ed. discriminate.
Qed.

(** Witness for C2, on the small implementation: with one digit of the MAC
    changed, the run ends in the MAC error after the hash and the HMAC
    calls. *)
Lemma decryptECIES_verifies_before_decrypting_witness :
  let o := {| iv := iv Small.sample; ephemeralPK := ephemeralPK Small.sample;
              cipherText := cipherText Small.sample;
              mac := "02131415161718191a1b1c1d1e1f202122232425262728292a2b2c2d2e2f3031";
              wasString := true |} in
  outcome (Small.decrypt Small.sk o) = inl MAC_CHECK_FAILED
  /\ List.length (calls (Small.decrypt Small.sk o)) = 2%nat
  /\ existsb isDecipher (calls (Small.decrypt Small.sk o)) = false.
Proof.
  intros o.
  assert (@keyAgreement Small.ecurve Small.sk (ephemeralPK o)
          = inr (Some (25, 18), paddedSecret 21)) as A
    by (vm_compute; reflexivity).
  pose proof (proj1 (proj2 (@decryptECIES_verifies_before_decrypting
                              Small.crypto Small.ecurve Small.sk o))
                _ _ A) as H.
  unfold Small.decrypt. rewrite H by (vm_compute; reflexivity).
  repeat split.
Defined.

(** Witness for C3, on the small implementation: one flipped bit in each
    field. *)
Lemma tampering_is_rejected_witness :
  rejected (Small.decrypt Small.sk (tamper Mac 0 Small.sample))
           MAC_CHECK_FAILED
  /\ rejected (Small.decrypt Small.sk (tamper Iv 5 Small.sample))
              MAC_CHECK_FAILED
  /\ rejected (Small.decrypt Small.sk (tamper CipherText 9 Small.sample))
              MAC_CHECK_FAILED
  /\ rejected (Small.decrypt Small.sk (tamper EphemeralPK 0 Small.sample))
              MAC_CHECK_FAILED
  /\ rejected (Small.decrypt Small.sk (tamper EphemeralPK 2 Small.sample))
              (Error "Unknown point format").
Proof.
  pose proof (@tampering_is_rejected Small.crypto Small.ecurve
                Small_sha512_size Small_aes_inverse
                Small.sk Small.pk Small.recipient Small.rnd 21%N
                Small_isKeyPair Small_transmissible Small_agree eq_refl
                Small_hmac_size Small.hi Small.sample Small_sample)
    as (Hmac & Hiv & Hct & Hpk).
  split; [apply Hmac; lia|].
  split; [apply Hiv; [lia | intros D; vm_compute in D; discriminate D]|].
  split; [apply Hct; [vm_compute; lia
                     | intros D; vm_compute in D; discriminate D]|].
  split.
  - pose proof (Hpk 0%nat ltac:(vm_compute; lia)) as H.
    replace (@keyAgreement Small.ecurve Small.sk
               (ephemeralPK (tamper EphemeralPK 0 Small.sample)))
      with (@inr exn _ (Some (25, 25), paddedSecret 21)) in H
      by (vm_compute; reflexivity).
    apply H; intros D; vm_compute in D; discriminate D.
  - pose proof (Hpk 2%nat ltac:(vm_compute; lia)) as H.
    replace (@keyAgreement Small.ecurve Small.sk
               (ephemeralPK (tamper EphemeralPK 2 Small.sample)))
      with (@inl exn (@Point Small.ecurve * Buffer)
              (Error "Unknown point format")) in H
      by (vm_compute; reflexivity).
    exact H.
Defined.

(** Counterexample to C3 as stated: it fails when the flipped bit is in the
    first byte of [ephemeralPK]: 02 becomes 06, which [keyFromPublic]
    refuses, and the error is the parser's, not the MAC error. *)
Lemma flipped_key_fails_in_parsing :
  outcome (Small.encrypt Small.rnd Small.pk Small.hi) = inr Small.sample
  /\ ephemeralPK (tamper EphemeralPK 2 Small.sample) = "0619"%string
  /\ Small.decrypt Small.sk (tamper EphemeralPK 2 Small.sample)
     = (inl (Error "Unknown point format"), [])
  /\ Error "Unknown point format" <> MAC_CHECK_FAILED.
Proof.
  repeat split; try (vm_compute; reflexivity). discriminate.
Qed.

(** Witness for C4, on the small implementation: the signature over
    "hi" verifies over "hi", and is answered [false] over "hj" and under
    the key of another point. *)
Lemma sign_then_verify_witness :
  exists s : signed,
    outcome (Small.signContent Small.sk Small.hi) = inr s
    /\ publicKey s = "020c"%string
    /\ outcome (Small.verifyContent Small.hi Small.pk (signature s))
       = inr true
    /\ Small.verifyContent (Str [104; 106]) Small.pk (signature s)
       = (inr false, [CreateHash "sha256" [x68; x6a]])
    /\ Small.verifyContent Small.hi "0219" (signature s)
       = (inr false, [CreateHash "sha256" [x68; x69]]).
Proof.
  destruct (@sign_then_verify Small.crypto Small.ecurve Small.keys
              Small.sk Small.pk "020c" Small.recipient
              Small.recipientPublic Small.hi
              ltac:(vm_compute; reflexivity)
              ltac:(vm_compute; reflexivity)
              ltac:(vm_compute; reflexivity) Small_ECDSA_correct)
    as (s & Es & Ep & Ev & _ & Hd & Hk).
  assert (E0 : outcome (@signECDSA Small.crypto Small.ecurve Small.keys
                          Small.sk Small.hi)
               = inr {| signature := "300602011d020113";
                        publicKey := "020c" |})
    by (vm_compute; reflexivity).
  rewrite E0 in Es. injection Es as <-.
  eexists. split; [exact E0|]. split; [reflexivity|].
  split; [exact Ev|]. split.
  - apply (Hd (Str [104; 106])).
    + vm_compute. discriminate.
    + intros D. vm_compute in D. discriminate D.
    + intros _ _. vm_compute. reflexivity.
  - apply (Hk "0219"%string {| Small.priv := None;
                               Small.pub := Some (25, 18) |}).
    + vm_compute. reflexivity.
    + vm_compute. discriminate.
    + intros _ _. vm_compute. reflexivity.
Defined.

(** Counterexample to C4 as stated: it fails on two different strings that
    have the same bytes: the signature over the lone surrogate U+D800
    verifies for the string U+FFFD. *)
Lemma signature_verifies_for_other_content :
  @isKeyPair Small.ecurve Small.sk Small.pk Small.recipient
  /\ exists s : signed,
    outcome (Small.signContent Small.sk (Str [0xD800])) = inr s
    /\ Str [0xD800] <> Str [0xFFFD]
    /\ outcome (Small.verifyContent (Str [0xFFFD]) Small.pk (signature s))
       = inr true.
Proof.
  split; [exact Small_isKeyPair|].
  eexists. split; [vm_compute; reflexivity|].
  split; [discriminate|]. vm_compute. reflexivity.
Qed.

(** Witness for C5, on the small implementation. *)
Lemma sharedSecretToKeys_correct_witness :
  exists k : sharedKeys,
    @sharedSecretToKeys Small.crypto [x01; x02]
      = (inr k, [CreateHash "sha512" [x01; x02]])
    /\ List.length (encryptionKey k) = 32%nat
    /\ List.length (hmacKey k) = 32%nat.
Proof.
  destruct (@sharedSecretToKeys_correct Small.crypto Small_sha512_size
              [x01; x02]) as (k & E & _ & _ & L1 & L2 & _).
  exists k. repeat split; assumption.
Defined.

(** Witness for C7, on buffers of 64 and 65 bytes. *)
Lemma equalConstTime_correct_witness :
  let a := repeat x00 64 in
  let b := repeat x00 63 ++ [x01] in
  equalConstTime a (x00 :: a) = false
  /\ equalConstTime a a = true
  /\ equalConstTime a b = false.
Proof.
  intros a b.
  split; [apply (proj1 (equalConstTime_correct a (x00 :: a))); simpl; lia|].
  split; [apply (proj2 (equalConstTime_correct a a) eq_refl); reflexivity|].
  destruct (equalConstTime a b) eqn:E; [|reflexivity].
  apply (proj2 (equalConstTime_correct a b) eq_refl) in E. discriminate E.
Defined.

(** Witness for C8, on the small implementation: a key with an unknown
    prefix, and a signature that is not DER. *)
Lemma verifyECDSA_malformed_input_witness :
  Small.verifyContent Small.hi "0619" "300602011d020113"
    = (inl (Error "Unknown point format"), [])
  /\ Small.verifyContent Small.hi Small.pk "3106"
     = (inl Small.SIGNATURE_WITHOUT_R_OR_S,
        [CreateHash "sha256" [x68; x69]]).
Proof.
  split.
  - apply (proj1 (@verifyECDSA_malformed_input Small.crypto Small.ecurve
                    Small.hi "0619" "300602011d020113")).
    vm_compute. reflexivity.
  - apply (proj1 (proj2 (@verifyECDSA_malformed_input Small.crypto
                           Small.ecurve Small.hi Small.pk "3106"))
             Small.recipientPublic).
    + vm_compute. reflexivity.
    + vm_compute. reflexivity.
Defined.

(** Counterexample to C8 as stated: it fails on a public key that is the
    uncompressed form of (0, 0), which is not on the curve.
    [keyFromPublic] accepts it, and [verifyECDSA] answers [false] to the
    signature made over "hi", as it does for a well-formed key and a
    signature that does not fit the content: no error is raised. *)
Lemma malformed_key_is_answered_false :
  Small.onCurve 0 0 = false
  /\ outcome (Small.signContent Small.sk Small.hi)
     = inr {| signature := "300602011d020113"; publicKey := "020c" |}
  /\ Small.verifyContent Small.hi "040000" "300602011d020113"
     = (inr false, [CreateHash "sha256" [x68; x69]])
  /\ Small.verifyContent (Str [104; 106]) Small.pk "300602011d020113"
     = (inr false, [CreateHash "sha256" [x68; x6a]]).
Proof.
  repeat split; vm_compute; reflexivity.
Qed.

(** Witness for C9, on the small implementation: a 31-byte MAC. *)
Lemma decryptECIES_mac_of_wrong_length_witness :
  let o := {| iv := iv Small.sample; ephemeralPK := ephemeralPK Small.sample;
              cipherText := cipherText Small.sample;
              mac := "131415161718191a1b1c1d1e1f202122232425262728292a2b2c2d2e2f3031";
              wasString := true |} in
  existsb isDecipher (calls (Small.decrypt Small.sk o)) = false
  /\ outcome (Small.decrypt Small.sk o) = inl MAC_CHECK_FAILED.
Proof.
  intros o.
  destruct (@decryptECIES_mac_of_wrong_length Small.crypto Small.ecurve
              Small_hmac_size Small.sk o) as (_ & N & E).
  - vm_compute. lia.
  - split; [exact N|].
    apply (E (Some (25, 18)) (paddedSecret 21)). vm_compute. reflexivity.
Defined.

(** Counterexample to C9 as stated: it fails when the key agreement does not
    succeed: with the prefix 06 on a compressed-size [ephemeralPK] and a
    31-byte [mac], the error is the key parser's and no MAC is ever
    computed. *)
Lemma short_mac_with_unusable_key :
  let o := {| iv := iv Small.sample; ephemeralPK := "0619";
              cipherText := cipherText Small.sample;
              mac := "131415161718191a1b1c1d1e1f202122232425262728292a2b2c2d2e2f3031";
              wasString := true |} in
  List.length (hexDecode (mac o)) = 31%nat
  /\ Small.decrypt Small.sk o = (inl (Error "Unknown point format"), [])
  /\ Error "Unknown point format" <> MAC_CHECK_FAILED.
Proof.
  repeat split; try (vm_compute; reflexivity); discriminate.
Qed.

(** Witness for C10, on the small implementation: the compressed and the
    uncompressed spelling of the ephemeral key give the same run. *)
Lemma decryptECIES_uses_the_parsed_point_witness :
  Small.decrypt Small.sk (withEphemeralPK "041912" Small.sample)
  = Small.decrypt Small.sk Small.sample
  /\ outcome (Small.decrypt Small.sk Small.sample) = inr Small.hi.
Proof.
  unfold Small.decrypt. split.
  - assert (forall hex : string,
               In hex ["0219"; "041912"]%string ->
               @keyFromPublic Small.ecurve hex
               = inr {| Small.priv := None; Small.pub := Some (25, 18) |})
      as E.
    { intros hex [<-|[<-|[]]]; vm_compute; reflexivity. }
    exact (proj1 (@decryptECIES_uses_the_parsed_point
                    Small.crypto Small.ecurve
                    Small.sk "041912" Small.sample _ _
                    (E "0219"%string (or_introl eq_refl))
                    (E "041912"%string (or_intror (or_introl eq_refl)))
                    eq_refl)).
  - vm_compute. reflexivity.
Defined.

(** * Further properties *)

(** ** The shared secret as 32 bytes *)

Lemma ascii_to_digit_bound (c : ascii) (d : N) :
  HexString.ascii_to_digit c = Some d -> (d < 16)%N.
Proof.
  unfold HexString.ascii_to_digit.
  repeat match goal with
         | |- context [ascii_dec ?a ?b] => destruct (ascii_dec a b)
         end;
    intros E; inversion E; lia.
Qed.

Lemma to_N_byte_of_N (v : N) :
  (v < 256)%N -> Byte.to_N (byte_of_Z (Z.of_N v)) = v.
Proof.
  intros B. apply N2Z.inj. apply (byte_to_of_Z (Z.of_N v)). lia.
Qed.

(** Decoding [2 * k] hex digits gives [k] bytes that hold, big-endian,
    the number the digits spell. *)
Lemma hexDecode_digits (k : nat) :
  forall (s : string) (acc : N),
    String.length s = (2 * k)%nat -> allHex s = true ->
    List.length (hexDecode s) = k
    /\ fold_left (fun a x => (256 * a + Byte.to_N x)%N) (hexDecode s) acc
       = HexString.Raw.to_N s acc.
Proof.
  induction k as [|k IH]; intros s acc L H.
  - destruct s; [split; reflexivity|discriminate].
  - destruct s as [|c1 [|c2 rest]]; try (simpl in L; lia).
    unfold allHex in H. cbn [list_ascii_of_string forallb] in H.
    rewrite !andb_true_iff in H. destruct H as (H1 & H2 & H3).
    unfold isHexChar in H1, H2. cbn [hexDecode HexString.Raw.to_N].
    destruct (HexString.ascii_to_digit c1) as [h|] eqn:E1; [|discriminate].
    destruct (HexString.ascii_to_digit c2) as [l|] eqn:E2; [|discriminate].
    apply ascii_to_digit_bound in E1, E2.
    destruct (IH rest (l + 16 * (h + 16 * acc))%N) as (IL & IV).
    { simpl in L. lia. }
    { exact H3. }
    cbn [List.length fold_left]. split; [lia|].
    rewrite to_N_byte_of_N by lia. rewrite <- IV. f_equal. lia.
Qed.

(** The digits of a number are never more than it needs... *)
Fixpoint of_pos_size (q : positive) (rest : string) {struct q} :
  (Npos q < 16 ^ N.of_nat (String.length (HexString.Raw.of_pos q rest)
                           - String.length rest))%N.
Proof.
  assert (step : forall (q' : positive) (c : ascii) (d : N),
             (d < 16)%N -> (Npos q = 16 * Npos q' + d)%N ->
             HexString.Raw.of_pos q rest
               = HexString.Raw.of_pos q' (String c rest) ->
             (Npos q' < 16 ^ N.of_nat
                 (String.length (HexString.Raw.of_pos q' (String c rest))
                  - String.length (String c rest)))%N ->
             (Npos q < 16 ^ N.of_nat
                 (String.length (HexString.Raw.of_pos q rest)
                  - String.length rest))%N).
  { intros q' c d Hd Hq -> IH.
    destruct (of_pos_digits q' (String c rest)) as (_ & L & _).
    simpl in IH, L.
    replace (String.length (HexString.Raw.of_pos q' (String c rest))
             - String.length rest)%nat
      with (S (String.length (HexString.Raw.of_pos q' (String c rest))
               - S (String.length rest)))%nat by lia.
    rewrite Nat2N.inj_succ, N.pow_succ_r'. lia. }
  destruct q as [[[[q|q|]|[q|q|]|]|[[q|q|]|[q|q|]|]|]
                |[[[q|q|]|[q|q|]|]|[[q|q|]|[q|q|]|]|]|].
  all: try (cbn [HexString.Raw.of_pos String.length];
            replace (S (String.length rest) - String.length rest)%nat
              with 1%nat by lia;
            simpl; lia).
  all: match goal with
       | |- context [HexString.Raw.of_pos ?q0 ?r] =>
           match eval cbn [HexString.Raw.of_pos] in (HexString.Raw.of_pos q0 r)
           with
           | HexString.Raw.of_pos ?q' (String ?c _) =>
               apply (step q' c (Npos q0 - 16 * Npos q')%N);
                 [lia | lia | reflexivity | apply of_pos_size]
           end
       end.
Qed.

Lemma BN_toString_hex_long (bn : N) :
  (2 ^ 256 <= bn)%N -> (64 < String.length (BN_toString_hex bn))%nat.
Proof.
  intros B. destruct bn as [|q]; [vm_compute in B; contradiction B; reflexivity|].
  pose proof (of_pos_size q EmptyString) as U. simpl in *.
  rewrite Nat.sub_0_r in U.
  destruct (Nat.le_gt_cases (String.length (HexString.Raw.of_pos q "")) 64)
    as [Hle|]; [exfalso|assumption].
  assert ((16 ^ N.of_nat (String.length (HexString.Raw.of_pos q ""))
           <= 16 ^ N.of_nat 64)%N) by (apply N.pow_le_mono_r; lia).
  replace (16 ^ N.of_nat 64)%N with (2 ^ 256)%N in * by reflexivity.
  lia.
Qed.

(** X1. [getHexFromBN] throws exactly on the numbers from 2^256 on.  Below
    2^256 it returns a string that [new Buffer(_, 'hex')] decodes to
    exactly 32 bytes, which hold the number big-endian (left-padded with
    zero bytes). *)
Theorem getHexFromBN_32_bytes (bn : N) :
  (getHexFromBN bn = inl BN_TOO_LONG <-> (2 ^ 256 <= bn)%N)
  /\ ((bn < 2 ^ 256)%N ->
      exists hex : string,
        getHexFromBN bn = inr hex
        /\ List.length (hexDecode hex) = 32%nat
        /\ bigEndian (hexDecode hex) = bn).
Proof.
  assert (Hlow : (bn < 2 ^ 256)%N ->
                 exists hex : string,
                   getHexFromBN bn = inr hex
                   /\ List.length (hexDecode hex) = 32%nat
                   /\ bigEndian (hexDecode hex) = bn).
  { intros B.
    assert (String.length (BN_toString_hex bn) <= 64)%nat as L.
    { apply BN_toString_hex_length; [|lia].
      replace (16 ^ N.of_nat 64)%N with (2 ^ 256)%N by reflexivity. exact B. }
    eexists. split; [apply getHexFromBN_short, L|].
    destruct (hexDecode_digits 32
                (zeros (64 - String.length (BN_toString_hex bn))
                 ++ BN_toString_hex bn) 0%N) as (HL & HV).
    - rewrite length_append, length_zeros. lia.
    - rewrite allHex_append, allHex_zeros. apply BN_toString_hex_allHex.
    - split; [exact HL|]. unfold bigEndian. rewrite HV, to_N_zeros.
      apply to_N_BN_toString_hex. }
  split; [|exact Hlow]. split.
  - intros E. destruct (N.lt_ge_cases bn (2 ^ 256)) as [B|B]; [|exact B].
    destruct (Hlow B) as (hex & E' & _). rewrite E in E'. discriminate E'.
  - intros B. apply BN_toString_hex_long in B. unfold getHexFromBN.
    destruct (String.length (BN_toString_hex bn) =? 64)%nat eqn:E1;
      [apply Nat.eqb_eq in E1; lia|].
    destruct (String.length (BN_toString_hex bn) <? 64)%nat eqn:E2;
      [apply Nat.ltb_lt in E2; lia|reflexivity].
Qed.

(** Witness for X1: 258 is padded to 32 bytes ending in 01 02, and 2^256
    is refused. *)
Lemma getHexFromBN_32_bytes_witness :
  (exists hex : string,
      getHexFromBN 258 = inr hex
      /\ List.length (hexDecode hex) = 32%nat
      /\ bigEndian (hexDecode hex) = 258%N)
  /\ getHexFromBN (2 ^ 256) = inl BN_TOO_LONG.
Proof.
  split.
  - apply (proj2 (getHexFromBN_32_bytes 258)). reflexivity.
  - apply (proj1 (getHexFromBN_32_bytes (2 ^ 256))). apply N.le_refl.
Defined.

(** ** What [encryptECIES] returns, and how it fails *)

Lemma length_hexEncode (b : Buffer) :
  String.length (hexEncode b) = (2 * List.length b)%nat.
Proof.
  induction b as [|x r IH]; [reflexivity|].
  cbn [hexEncode String.length List.length]. rewrite IH. lia.
Qed.

Lemma allHex_hexEncode (b : Buffer) : allHex (hexEncode b) = true.
Proof.
  unfold allHex. induction b as [|x r IH]; [reflexivity|].
  cbn [hexEncode list_ascii_of_string forallb]. unfold isHexChar.
  destruct (hexDigit_value x) as [-> ->]. exact IH.
Qed.

Section EncryptionRuns.
Context `{crypto : Crypto} `{ecurve : EllipticCurve}.

(** [encryptECIES] in closed form: the error of the first phase, after
    the draw of the key pair at most; or the cipher's error after four
    [crypto] calls; or a cipher object after five. *)
Lemma encryptECIES_eq (rnd : entropy) (pk : string) (m : content) :
  encryptECIES rnd pk m =
  match senderSecret rnd pk with
  | inl e => (inl e, keyPairDraw pk)
  | inr secret =>
      let keys := keysOf secret in
      let ivBuffer := randomBytes16 rnd in
      let P := getPublic (genKeyPair rnd) in
      match aes_256_cbc_cipher (encryptionKey keys) ivBuffer
              (Buffer_from m) with
      | inl e =>
          (inl e,
           [RandomBytes 192; CreateHash "sha512" secret; RandomBytes 16;
            CreateCipheriv "aes-256-cbc" (encryptionKey keys) ivBuffer
              (Buffer_from m)])
      | inr ct =>
          (inr {| iv := hexEncode ivBuffer;
                  ephemeralPK := hexEncode (encodeCompressed P);
                  cipherText := hexEncode ct;
                  mac := hexEncode (hmac_sha256 (hmacKey keys)
                                      (macInput ivBuffer P ct));
                  wasString := isString m |},
           [RandomBytes 192; CreateHash "sha512" secret; RandomBytes 16;
            CreateCipheriv "aes-256-cbc" (encryptionKey keys) ivBuffer
              (Buffer_from m);
            CreateHmac "sha256" (hmacKey keys) (macInput ivBuffer P ct)])
      end
  end.
Proof.
  unfold encryptECIES, senderSecret, keyPairDraw, lift, called, bind.
  destruct (keyFromPublic pk) as [e|Kp]; [reflexivity|].
  destruct (derive (genKeyPair rnd) (getPublic Kp)) as [e|s]; [reflexivity|].
  destruct (getHexFromBN s) as [e|hex]; [reflexivity|].
  unfold sharedSecretToKeys, aes256CbcEncrypt, hmacSha256, called, ret, bind.
  cbv beta iota zeta.
  change (firstn 32 (sha512 (hexDecode hex)))
    with (encryptionKey (keysOf (hexDecode hex))).
  change (skipn 32 (sha512 (hexDecode hex)))
    with (hmacKey (keysOf (hexDecode hex))).
  destruct (aes_256_cbc_cipher _ _ _) as [e|ct]; reflexivity.
Qed.

(** X2. Every cipher object [encryptECIES] returns is authenticated as it
    is sent: its [mac] field is the hex of the HMAC-SHA256, under the MAC
    half of the derived keys, of the bytes its own [iv], [ephemeralPK] and
    [cipherText] fields decode to, in that order.  The run made exactly
    five [crypto] calls: the 192 random bytes of the ephemeral key pair,
    SHA-512 of the secret, the random IV, the cipher under the encryption
    half, the HMAC.  [wasString] is outside the MAC. *)
Theorem encryptECIES_authenticates_its_fields
    (rnd : entropy) (pk : string) (m : content) (o : CipherObject) :
  outcome (encryptECIES rnd pk m) = inr o ->
  exists (secret ct : Buffer),
    senderSecret rnd pk = inr secret
    /\ aes_256_cbc_cipher (encryptionKey (keysOf secret))
         (randomBytes16 rnd) (Buffer_from m) = inr ct
    /\ hexDecode (iv o) = randomBytes16 rnd
    /\ hexDecode (ephemeralPK o)
       = encodeCompressed (getPublic (genKeyPair rnd))
    /\ hexDecode (cipherText o) = ct
    /\ hexDecode (mac o)
       = hmac_sha256 (hmacKey (keysOf secret))
           (hexDecode (iv o) ++ hexDecode (ephemeralPK o)
              ++ hexDecode (cipherText o))
    /\ wasString o = isString m
    /\ calls (encryptECIES rnd pk m)
       = [RandomBytes 192; CreateHash "sha512" secret; RandomBytes 16;
          CreateCipheriv "aes-256-cbc" (encryptionKey (keysOf secret))
            (randomBytes16 rnd) (Buffer_from m);
          CreateHmac "sha256" (hmacKey (keysOf secret))
            (hexDecode (iv o) ++ hexDecode (ephemeralPK o)
               ++ hexDecode (cipherText o))].
Proof.
  rewrite encryptECIES_eq.
  destruct (senderSecret rnd pk) as [e|secret]; [discriminate|].
  cbv zeta.
  destruct (aes_256_cbc_cipher _ _ _) as [e|ct] eqn:Ec; [discriminate|].
  unfold outcome, calls. cbn [fst snd]. intros E.
  assert (Ho := f_equal (fun r : result CipherObject =>
                           match r with inr x => x | inl _ => o end) E).
  cbv beta iota in Ho. subst o.
  cbn [iv ephemeralPK cipherText mac wasString].
  rewrite !hexDecode_hexEncode.
  exists secret, ct. unfold macInput. repeat split; reflexivity || exact Ec.
Qed.

(** X3. The wire format of a returned cipher object: every field is
    lower-case hex that decodes back without loss; [iv] has 32 characters
    and [mac] 64 (given a 16-byte draw and a 32-byte HMAC); [ephemeralPK]
    has two characters per byte of the compressed point, and [cipherText]
    an even number of characters. *)
Theorem encryptECIES_wire_format
    (hmac_size : forall k d, List.length (hmac_sha256 k d) = 32%nat)
    (rnd : entropy) (pk : string) (m : content) (o : CipherObject) :
  List.length (randomBytes16 rnd) = 16%nat ->
  outcome (encryptECIES rnd pk m) = inr o ->
  String.length (iv o) = 32%nat
  /\ String.length (mac o) = 64%nat
  /\ String.length (ephemeralPK o)
     = (2 * List.length (encodeCompressed (getPublic (genKeyPair rnd))))%nat
  /\ String.length (cipherText o)
     = (2 * List.length (hexDecode (cipherText o)))%nat
  /\ allHex (iv o) = true /\ allHex (mac o) = true
  /\ allHex (ephemeralPK o) = true /\ allHex (cipherText o) = true
  /\ hexEncode (hexDecode (iv o)) = iv o
  /\ hexEncode (hexDecode (mac o)) = mac o
  /\ hexEncode (hexDecode (ephemeralPK o)) = ephemeralPK o
  /\ hexEncode (hexDecode (cipherText o)) = cipherText o.
Proof.
  intros Liv. rewrite encryptECIES_eq.
  destruct (senderSecret rnd pk) as [e|secret]; [discriminate|].
  cbv zeta.
  destruct (aes_256_cbc_cipher _ _ _) as [e|ct]; [discriminate|].
  unfold outcome. cbn [fst]. intros E.
  assert (Ho := f_equal (fun r : result CipherObject =>
                           match r with inr x => x | inl _ => o end) E).
  cbv beta iota in Ho. subst o.
  cbn [iv ephemeralPK cipherText mac wasString].
  rewrite !hexDecode_hexEncode, !length_hexEncode, !allHex_hexEncode.
  rewrite hmac_size, Liv. repeat split; reflexivity.
Qed.

(** X4. How [encryptECIES] fails.  It never creates a decipher.  A
    recipient key that [keyFromPublic] refuses ends the run with that
    error before any [crypto] call.  Whenever it throws, no HMAC was
    computed, and either the first phase failed (the recipient key did not
    parse, or no secret below 2^256 was derived) with nothing hashed or
    enciphered, no IV drawn and at most the 192 bytes of the ephemeral key
    pair drawn; or the cipher threw after the draw of the key pair, the
    hash, the draw of the IV and the cipher call. *)
Theorem encryptECIES_failure
    (rnd : entropy) (pk : string) (m : content) :
  existsb isDecipher (calls (encryptECIES rnd pk m)) = false
  /\ (forall e : exn,
         keyFromPublic pk = inl e -> encryptECIES rnd pk m = (inl e, []))
  /\ (forall e : exn,
         outcome (encryptECIES rnd pk m) = inl e ->
         existsb isHmac (calls (encryptECIES rnd pk m)) = false
         /\ ((senderSecret rnd pk = inl e
              /\ (calls (encryptECIES rnd pk m) = []
                  \/ calls (encryptECIES rnd pk m) = [RandomBytes 192]))
             \/ (exists secret : Buffer,
                    senderSecret rnd pk = inr secret
                    /\ aes_256_cbc_cipher (encryptionKey (keysOf secret))
                         (randomBytes16 rnd) (Buffer_from m) = inl e
                    /\ calls (encryptECIES rnd pk m)
                       = [RandomBytes 192; CreateHash "sha512" secret;
                          RandomBytes 16;
                          CreateCipheriv "aes-256-cbc"
                            (encryptionKey (keysOf secret))
                            (randomBytes16 rnd) (Buffer_from m)]))).
Proof.
  rewrite encryptECIES_eq. split; [|split].
  - destruct (senderSecret rnd pk) as [e0|secret].
    + unfold keyPairDraw. destruct (keyFromPublic pk); reflexivity.
    + cbv zeta. destruct (aes_256_cbc_cipher _ _ _); reflexivity.
  - intros e E. unfold senderSecret, keyPairDraw. rewrite E. reflexivity.
  - destruct (senderSecret rnd pk) as [e0|secret].
    + intros e E. inversion E. subst. unfold keyPairDraw, calls. cbn [snd].
      destruct (keyFromPublic pk).
      * split; [reflexivity|]. left. split; [reflexivity|].
        left. reflexivity.
      * split; [reflexivity|]. left. split; [reflexivity|].
        right. reflexivity.
    + cbv zeta.
      destruct (aes_256_cbc_cipher _ _ _) as [e0|ct] eqn:Ec.
      * intros e E. inversion E. subst.
        split; [reflexivity|]. right. exists secret.
        repeat split. exact Ec.
      * intros e E. discriminate E.
Qed.

(** X5. [encryptECIES] uses the recipient's key only through the point it
    parses to: two spellings of one point (compressed, uncompressed, other
    letter case) give the same cipher object and the same calls. *)
Theorem encryptECIES_uses_the_parsed_point
    (rnd : entropy) (pk1 pk2 : string) (K1 K2 : KeyPair) (m : content) :
  keyFromPublic pk1 = inr K1 ->
  keyFromPublic pk2 = inr K2 ->
  getPublic K1 = getPublic K2 ->
  encryptECIES rnd pk1 m = encryptECIES rnd pk2 m.
Proof.
  intros E1 E2 EP. rewrite !encryptECIES_eq.
  assert (senderSecret rnd pk1 = senderSecret rnd pk2) as ->.
  { unfold senderSecret. rewrite E1, E2, EP. reflexivity. }
  unfold keyPairDraw. rewrite E1, E2. reflexivity.
Qed.

(** X6. The overflow guard: when the derived secret is 2^256 or more,
    [encryptECIES] and [decryptECIES] both throw the error of
    [getHexFromBN]: the former with the draw of the ephemeral key pair as
    its only [crypto] call, the latter before any [crypto] call. *)
Theorem oversized_secret_is_refused :
  (forall (rnd : entropy) (pk : string) (Kp : KeyPair) (m : content)
          (secret : N),
      keyFromPublic pk = inr Kp ->
      derive (genKeyPair rnd) (getPublic Kp) = inr secret ->
      (2 ^ 256 <= secret)%N ->
      encryptECIES rnd pk m = (inl BN_TOO_LONG, [RandomBytes 192]))
  /\ (forall (sk : string) (o : CipherObject) (K Ke : KeyPair) (secret : N),
         keyFromPrivate sk = inr K ->
         keyFromPublic (ephemeralPK o) = inr Ke ->
         derive K (getPublic Ke) = inr secret ->
         (2 ^ 256 <= secret)%N ->
         decryptECIES sk o = (inl BN_TOO_LONG, [])).
Proof.
  assert (forall s, (2 ^ 256 <= s)%N -> getHexFromBN s = inl BN_TOO_LONG)
    as G.
  { intros s B. apply BN_toString_hex_long in B. unfold getHexFromBN.
    destruct (String.length (BN_toString_hex s) =? 64)%nat eqn:E1;
      [apply Nat.eqb_eq in E1; lia|].
    destruct (String.length (BN_toString_hex s) <? 64)%nat eqn:E2;
      [apply Nat.ltb_lt in E2; lia|reflexivity]. }
  split.
  - intros rnd pk Kp m secret EKp D B.
    rewrite encryptECIES_eq. unfold senderSecret, keyPairDraw.
    rewrite EKp, D, (G _ B). reflexivity.
  - intros sk o K Ke secret EK EKe D B.
    rewrite decryptECIES_eq. unfold keyAgreement.
    rewrite EK, EKe, D, (G _ B). reflexivity.
Qed.

(** X12. [encryptECIES] treats a string as the buffer of its UTF-8 bytes:
    encrypting the string and encrypting that buffer make the same calls
    and give cipher objects that differ in the [wasString] flag alone. *)
Theorem encryptECIES_content_type
    (rnd : entropy) (pk : string) (m : content) :
  encryptECIES rnd pk m
  = (match outcome (encryptECIES rnd pk (Buf (Buffer_from m))) with
     | inl e => inl e
     | inr o => inr (setWasString (isString m) o)
     end,
     calls (encryptECIES rnd pk (Buf (Buffer_from m)))).
Proof.
  rewrite !encryptECIES_eq. cbn [Buffer_from].
  destruct (senderSecret rnd pk) as [e|secret]; [reflexivity|].
  cbv zeta. destruct (aes_256_cbc_cipher _ _ _) as [e|ct]; reflexivity.
Qed.

End EncryptionRuns.

(** ** What [decryptECIES] returns, and how it fails *)

Section DecryptionRuns.
Context `{crypto : Crypto} `{ecurve : EllipticCurve}.

(** X7. The outcomes of [decryptECIES].  It never creates a cipher, never
    draws random bytes and makes at most three [crypto] calls.  An error
    it throws is the error of the key agreement, or the MAC error after a
    failed comparison, or, after a passed comparison, the error of the
    decipher (which then surfaces instead of any plaintext).  A returned
    plaintext is a string exactly when [wasString] is set. *)
Theorem decryptECIES_outcomes (sk : string) (o : CipherObject) :
  existsb isCipher (calls (decryptECIES sk o)) = false
  /\ existsb isRandom (calls (decryptECIES sk o)) = false
  /\ (List.length (calls (decryptECIES sk o)) <= 3)%nat
  /\ (forall e : exn,
         outcome (decryptECIES sk o) = inl e ->
         keyAgreement sk (ephemeralPK o) = inl e
         \/ exists (P : Point) (secret : Buffer),
             keyAgreement sk (ephemeralPK o) = inr (P, secret)
             /\ ((e = MAC_CHECK_FAILED
                  /\ equalConstTime (hexDecode (mac o)) (macOf secret P o)
                     = false)
                 \/ (equalConstTime (hexDecode (mac o)) (macOf secret P o)
                     = true
                     /\ aes_256_cbc_decipher (encryptionKey (keysOf secret))
                          (hexDecode (iv o)) (hexDecode (cipherText o))
                        = inl e)))
  /\ (forall (P : Point) (secret : Buffer) (e : exn),
         keyAgreement sk (ephemeralPK o) = inr (P, secret) ->
         equalConstTime (hexDecode (mac o)) (macOf secret P o) = true ->
         aes_256_cbc_decipher (encryptionKey (keysOf secret))
           (hexDecode (iv o)) (hexDecode (cipherText o)) = inl e ->
         outcome (decryptECIES sk o) = inl e)
  /\ (forall c : content,
         outcome (decryptECIES sk o) = inr c -> isString c = wasString o).
Proof.
  rewrite decryptECIES_eq.
  destruct (keyAgreement sk (ephemeralPK o)) as [e0|[P secret]].
  - split; [reflexivity|]. split; [reflexivity|]. split; [simpl; lia|].
    split; [|split].
    + intros e E. inversion E. left. reflexivity.
    + intros ? ? ? D. discriminate D.
    + intros c E. discriminate E.
  - cbv zeta. destruct (equalConstTime _ _) eqn:Q.
    + destruct (aes_256_cbc_decipher _ _ _) as [e0|pt] eqn:D.
      * split; [reflexivity|]. split; [reflexivity|]. split; [simpl; lia|].
        split; [|split].
        -- intros e E. inversion E. subst. right. exists P, secret.
           split; [reflexivity|]. right. split; [exact Q|exact D].
        -- intros P' secret' e A _ D'. inversion A. subst.
           rewrite D in D'. inversion D'. reflexivity.
        -- intros c E. discriminate E.
      * split; [reflexivity|]. split; [reflexivity|]. split; [simpl; lia|].
        split; [|split].
        -- intros e E. discriminate E.
        -- intros P' secret' e A _ D'. inversion A. subst.
           rewrite D in D'. discriminate D'.
        -- intros c E. inversion E. destruct (wasString o); reflexivity.
    + split; [reflexivity|]. split; [reflexivity|]. split; [simpl; lia|].
      split; [|split].
      * intros e E. inversion E. right. exists P, secret.
        split; [reflexivity|]. left. split; [reflexivity|exact Q].
      * intros P' secret' e A Q'. inversion A. subst.
        rewrite Q in Q'. discriminate Q'.
      * intros c E. discriminate E.
Qed.

(** X8. [wasString] is not authenticated.  Setting the flag on a cipher
    object changes neither the [crypto] calls nor whether decryption
    fails; it only makes the decrypted buffer come back read as a UTF-8
    string. *)
Theorem wasString_is_not_authenticated (sk : string) (o : CipherObject) :
  decryptECIES sk (setWasString true o)
  = (match outcome (decryptECIES sk (setWasString false o)) with
     | inl e => inl e
     | inr c => inr (asString c)
     end,
     calls (decryptECIES sk (setWasString false o)))
  /\ (forall c, outcome (decryptECIES sk (setWasString false o)) = inr c ->
                exists b, c = Buf b).
Proof.
  rewrite !decryptECIES_eq.
  cbn [setWasString iv ephemeralPK cipherText mac wasString].
  destruct (keyAgreement sk (ephemeralPK o)) as [e|[P secret]].
  - split; [reflexivity|]. intros c E. discriminate E.
  - cbv zeta. unfold macOf.
    cbn [setWasString iv ephemeralPK cipherText mac wasString].
    destruct (equalConstTime _ _).
    + destruct (aes_256_cbc_decipher _ _ _) as [e|pt].
      * split; [reflexivity|]. intros c E. discriminate E.
      * split; [reflexivity|]. intros c E. inversion E. eauto.
    + split; [reflexivity|]. intros c E. discriminate E.
Qed.

(** X9. [decryptECIES] reads [iv], [cipherText] and [mac] only through
    the bytes they decode to: two cipher objects whose fields decode alike
    (upper-case instead of lower-case hex digits, say) give the same run,
    calls and outcome. *)
Theorem decryptECIES_reads_decoded_fields
    (sk : string) (o1 o2 : CipherObject) :
  hexDecode (iv o1) = hexDecode (iv o2) ->
  hexDecode (cipherText o1) = hexDecode (cipherText o2) ->
  hexDecode (mac o1) = hexDecode (mac o2) ->
  ephemeralPK o1 = ephemeralPK o2 ->
  wasString o1 = wasString o2 ->
  decryptECIES sk o1 = decryptECIES sk o2.
Proof.
  intros Ei Ec Em Ep Ew. rewrite !decryptECIES_eq. unfold macOf.
  rewrite Ei, Ec, Em, Ep, Ew. reflexivity.
Qed.

End DecryptionRuns.

(** ** Signing *)

Section SigningRuns.
Context `{crypto : Crypto} `{ecurve : EllipticCurve} `{keys : Keys}.

(** X10. [signECDSA] parses the private key, then asks [./keys] for the
    public key, and only then hashes: when either of the two fails, it
    throws that error and no hash is computed.  When it returns, the
    [publicKey] it reports is what [getPublicKeyFromPrivate] gave for the
    private key (whatever the content), the signature is the DER of the
    library's signature over the SHA-256 of the content's bytes, and that
    hash is its only [crypto] call.  Contents with the same bytes are
    signed alike. *)
Theorem signECDSA_behaviour (sk : string) (m : content) :
  (forall e, keyFromPrivate sk = inl e -> signECDSA sk m = (inl e, []))
  /\ (forall K e, keyFromPrivate sk = inr K ->
                  getPublicKeyFromPrivate sk = inl e ->
                  signECDSA sk m = (inl e, []))
  /\ (forall s : signed,
         outcome (signECDSA sk m) = inr s ->
         getPublicKeyFromPrivate sk = inr (publicKey s)
         /\ (exists (K : KeyPair) (sg : Signature),
                keyFromPrivate sk = inr K
                /\ sign K (sha256 (Buffer_from m)) = inr sg
                /\ signature s = toDER sg)
         /\ calls (signECDSA sk m) = [CreateHash "sha256" (Buffer_from m)])
  /\ (forall m' : content,
         Buffer_from m = Buffer_from m' -> signECDSA sk m = signECDSA sk m').
Proof.
  unfold signECDSA, lift, called, bind, outcome, calls.
  split; [|split; [|split]].
  - intros e ->. reflexivity.
  - intros K e -> ->. reflexivity.
  - intros s. destruct (keyFromPrivate sk) as [e|K]; [discriminate|].
    destruct (getPublicKeyFromPrivate sk) as [e|pkOut]; [discriminate|].
    cbv beta iota.
    destruct (sign K (sha256 (Buffer_from m))) as [e|sg] eqn:ES;
      [discriminate|].
    cbn. intros E. inversion E. subst. cbn.
    split; [reflexivity|]. split; [|reflexivity].
    exists K, sg. repeat split. exact ES.
  - intros m' E. rewrite E. reflexivity.
Qed.

End SigningRuns.

(** ** The further properties at concrete inputs *)

(** Witness for X2, on the small implementation. *)
Lemma encryptECIES_authenticates_its_fields_witness :
  exists secret : Buffer,
    hexDecode (mac Small.sample)
    = @hmac_sha256 Small.crypto (hmacKey (@keysOf Small.crypto secret))
        (hexDecode (iv Small.sample) ++ hexDecode (ephemeralPK Small.sample)
           ++ hexDecode (cipherText Small.sample))
    /\ List.length (calls (Small.encrypt Small.rnd Small.pk Small.hi))
       = 5%nat.
Proof.
  destruct (@encryptECIES_authenticates_its_fields Small.crypto Small.ecurve
              Small.rnd Small.pk Small.hi Small.sample Small_sample)
    as (secret & ct & _ & _ & _ & _ & _ & Hm & _ & Hc).
  exists secret. split; [exact Hm|].
  unfold Small.encrypt. rewrite Hc. reflexivity.
Defined.

(** Witness for X3, on the small implementation. *)
Lemma encryptECIES_wire_format_witness :
  String.length (iv Small.sample) = 32%nat
  /\ String.length (mac Small.sample) = 64%nat
  /\ allHex (cipherText Small.sample) = true
  /\ hexEncode (hexDecode (mac Small.sample)) = mac Small.sample.
Proof.
  destruct (@encryptECIES_wire_format Small.crypto Small.ecurve
              Small_hmac_size Small.rnd Small.pk Small.hi Small.sample
              eq_refl Small_sample)
    as (L1 & L2 & _ & _ & _ & _ & _ & H & _ & R & _).
  repeat split; assumption.
Defined.

(** Witness for X4, on the small implementation: the cipher refuses an
    empty IV, after four calls and before any HMAC. *)
Lemma encryptECIES_failure_witness :
  outcome (Small.encrypt Small.rndNoIv Small.pk Small.hi)
    = inl (Error "Invalid IV length")
  /\ existsb isHmac (calls (Small.encrypt Small.rndNoIv Small.pk Small.hi))
     = false
  /\ existsb isDecipher
       (calls (Small.encrypt Small.rndNoIv Small.pk Small.hi)) = false.
Proof.
  unfold Small.encrypt.
  assert (outcome (@encryptECIES Small.crypto Small.ecurve Small.rndNoIv
                     Small.pk Small.hi)
          = inl (Error "Invalid IV length")) as E
    by (vm_compute; reflexivity).
  destruct (@encryptECIES_failure Small.crypto Small.ecurve Small.rndNoIv
              Small.pk Small.hi) as (D & F).
  destruct F as (_ & F). destruct (F _ E) as (H & _).
  repeat split; assumption.
Defined.

(** Witness for X5, on the small implementation: the recipient's key
    compressed and uncompressed. *)
Lemma encryptECIES_uses_the_parsed_point_witness :
  Small.encrypt Small.rnd "020c" Small.hi
  = Small.encrypt Small.rnd "040c0c" Small.hi.
Proof.
  unfold Small.encrypt.
  assert (forall hex : string,
             In hex ["020c"; "040c0c"]%string ->
             @keyFromPublic Small.ecurve hex = inr Small.recipientPublic)
    as E.
  { intros hex [<-|[<-|[]]]; vm_compute; reflexivity. }
  exact (@encryptECIES_uses_the_parsed_point Small.crypto Small.ecurve
           Small.rnd "020c" "040c0c" _ _ Small.hi
           (E "020c"%string (or_introl eq_refl))
           (E "040c0c"%string (or_intror (or_introl eq_refl)))
           eq_refl).
Defined.

(** Witness for X6, on the small curve with the oversized [derive]. *)
Lemma oversized_secret_is_refused_witness :
  @encryptECIES Small.crypto Small.oversized Small.rndOversized Small.pk
    Small.hi
  = (inl BN_TOO_LONG, [RandomBytes 192])
  /\ @decryptECIES Small.crypto Small.oversized Small.sk Small.sample
     = (inl BN_TOO_LONG, []).
Proof.
  destruct (@oversized_secret_is_refused Small.crypto Small.oversized)
    as (He & Hd).
  split.
  - apply (He Small.rndOversized Small.pk Small.recipientPublic Small.hi
              (2 ^ 256)%N).
    + vm_compute. reflexivity.
    + reflexivity.
    + apply N.le_refl.
  - apply (Hd Small.sk Small.sample Small.recipient
              {| Small.priv := None; Small.pub := Some (25, 18) |}
              (2 ^ 256)%N).
    + vm_compute. reflexivity.
    + vm_compute. reflexivity.
    + reflexivity.
    + apply N.le_refl.
Defined.

(** Witness for X7, on the small implementation: a cipher object with the
    right MAC and no valid padding ends in the decipher's error. *)
Lemma decryptECIES_outcomes_witness :
  outcome (Small.decrypt Small.sk Small.badPadding)
    = inl (Error "bad decrypt")
  /\ existsb isCipher (calls (Small.decrypt Small.sk Small.badPadding))
     = false.
Proof.
  unfold Small.decrypt.
  destruct (@decryptECIES_outcomes Small.crypto Small.ecurve Small.sk
              Small.badPadding) as (C & _ & _ & _ & F & _).
  split; [|exact C].
  apply (F (Some (25, 18)) (paddedSecret 21)); vm_compute; reflexivity.
Defined.

(** Witness for X8, on the small implementation: without the flag the
    sample decrypts to the two bytes, with it to the string. *)
Lemma wasString_is_not_authenticated_witness :
  outcome (Small.decrypt Small.sk (setWasString false Small.sample))
    = inr (Buf [x68; x69])
  /\ outcome (Small.decrypt Small.sk (setWasString true Small.sample))
     = inr Small.hi.
Proof.
  unfold Small.decrypt.
  assert (outcome (@decryptECIES Small.crypto Small.ecurve Small.sk
                     (setWasString false Small.sample))
          = inr (Buf [x68; x69])) as E by (vm_compute; reflexivity).
  split; [exact E|].
  rewrite (proj1 (@wasString_is_not_authenticated Small.crypto Small.ecurve
                    Small.sk Small.sample)).
  unfold outcome at 1. cbn [fst]. rewrite E. reflexivity.
Defined.

(** Witness for X9, on the small implementation: upper-case hex. *)
Lemma decryptECIES_reads_decoded_fields_witness :
  Small.decrypt Small.sk Small.sampleUpper
  = Small.decrypt Small.sk Small.sample.
Proof.
  unfold Small.decrypt.
  apply (@decryptECIES_reads_decoded_fields Small.crypto Small.ecurve);
    vm_compute; reflexivity.
Defined.

(** Witness for X10, on the small implementation. *)
Lemma signECDSA_behaviour_witness :
  (forall s : signed,
      outcome (Small.signContent Small.sk Small.hi) = inr s ->
      publicKey s = "020c"%string)
  /\ Small.signContent "05" (Str [0x68; 0x69])
     = Small.signContent "05" (Buf [x68; x69]).
Proof.
  unfold Small.signContent.
  destruct (@signECDSA_behaviour Small.crypto Small.ecurve Small.keys
              "05" (Str [0x68; 0x69])) as (_ & _ & H & S).
  split.
  - intros s E. destruct (H s E) as (P & _).
    assert (@getPublicKeyFromPrivate Small.keys "05" = inr "020c"%string)
      as G by (vm_compute; reflexivity).
    change Small.sk with "05"%string in P.
    rewrite G in P. inversion P. reflexivity.
  - apply S. vm_compute. reflexivity.
Defined.

(** Witness for X12, on the small implementation: the string "hi" and the
    buffer 68 69. *)
Lemma encryptECIES_content_type_witness :
  outcome (Small.encrypt Small.rnd Small.pk (Buf [x68; x69]))
    = inr (setWasString false Small.sample)
  /\ outcome (Small.encrypt Small.rnd Small.pk Small.hi)
     = inr Small.sample.
Proof.
  unfold Small.encrypt.
  assert (outcome (@encryptECIES Small.crypto Small.ecurve Small.rnd
                     Small.pk (Buf [x68; x69]))
          = inr (setWasString false Small.sample)) as E
    by (vm_compute; reflexivity).
  split; [exact E|].
  rewrite (@encryptECIES_content_type Small.crypto Small.ecurve Small.rnd
             Small.pk Small.hi).
  unfold outcome at 1. cbn [fst].
  change (Buffer_from Small.hi) with [x68; x69]. rewrite E. reflexivity.
Defined.
